(** * Roman emperors database: the record model and the collection queries

    A shallow embedding of [class.py]: the class [RomanEmperor] (a record and
    its derived computations), the class [RomanEmpire] (an ordered list of
    records and a set of dynasty labels, with its queries) and the seeding
    function [create_roman_empire].

    Python integers are unbounded, so years are [Z].  A text is the [string]
    of its UTF-8 bytes: concatenation, equality and emptiness are those of
    the bytes, and so is the substring test, because a character's encoding
    never starts inside the encoding of another.  An optional argument whose
    default is [None] is an [option].  The set of dynasty labels is a
    [gset string]. *)

From stdpp Require Import base decidable option list sorting strings pretty gmap.
From Stdlib Require Import ZArith Lia.

Local Open Scope string_scope.
Local Open Scope Z_scope.
Local Open Scope list_scope.

(** ** Python values used by the code *)

(** [yes if o else no] for an optional text [o]: [None] and the empty text
    are falsy, every other text is truthy (and [yes] may use it). *)
Definition if_truthy {A} (o : option string) (yes : string → A) (no : A) : A :=
  match o with
  | None => no
  | Some s => if String.eqb s "" then no else yes s
  end.

Definition truthy (o : option string) : bool := if_truthy o (λ _, true) false.

(** [x or []] for a list argument that defaults to [None]. *)
Definition or_nil {A} (o : option (list A)) : list A :=
  match o with
  | None => []
  | Some l => l
  end.

(** The line feed used by ["\n".join]. *)
Definition nl : string := String (Ascii.ascii_of_nat 10) EmptyString.

(** [sep.join(items)]. *)
Fixpoint join (sep : string) (items : list string) : string :=
  match items with
  | [] => ""
  | [s] => s
  | s :: rest => s +:+ sep +:+ join sep rest
  end.

(** ** class RomanEmperor *)

(** [successor] is a reference to another record of the collection; a
    reference is the position of the record in the collection's list. *)
Record RomanEmperor := {
  name : string;
  birth : Z;
  death : Z;
  reign_start : Z;
  reign_end : Z;
  dynasty : option string;
  notable_achievements : list string;
  cause_of_death : option string;
  predecessor : option string;
  successor : option nat;
  wives : list string;
  zodiac : option string
}.


(** [RomanEmperor.__init__]. *)
Definition RomanEmperor__init__ (name : string) (birth death reign_start reign_end : Z)
    (dynasty : option string) (notable_achievements : option (list string))
    (cause_of_death predecessor : option string) (successor : option nat)
    (wives : option (list string)) (zodiac : option string) : RomanEmperor :=
  {| name := name;
     birth := birth;
     death := death;
     reign_start := reign_start;
     reign_end := reign_end;
     dynasty := dynasty;
     notable_achievements := or_nil notable_achievements;
     cause_of_death := cause_of_death;
     predecessor := predecessor;
     successor := successor;
     wives := or_nil wives;
     zodiac := zodiac |}.

Definition reign_duration (self : RomanEmperor) : Z :=
  reign_end self - reign_start self.

Definition age_at_death (self : RomanEmperor) : Z :=
  death self - birth self.

Definition age_at_accession (self : RomanEmperor) : Z :=
  reign_start self - birth self.

(** The list [info] built by [RomanEmperor.__str__], before it is joined. *)
Definition info (self : RomanEmperor) : list string :=
  let info :=
    [ "Name: " +:+ name self;
      "Lived: " +:+ pretty (birth self) +:+ " CE - " +:+ pretty (death self)
        +:+ " CE (Age: " +:+ pretty (age_at_death self) +:+ " years)";
      "Reign: " +:+ pretty (reign_start self) +:+ " CE - "
        +:+ pretty (reign_end self) +:+ " CE ("
        +:+ pretty (reign_duration self) +:+ " years)";
      if_truthy (dynasty self) (λ d, "Dynasty: " +:+ d) "Dynasty: None";
      if_truthy (zodiac self) (λ z, "Zodiac Sign: " +:+ z) "Zodiac Sign: Unknown" ] in
  let info :=
    match wives self with
    | [] => info
    | _ => (info ++ ["Wives/Consorts:"]) ++ map (λ wife, "  - " +:+ wife) (wives self)
    end in
  let info :=
    match notable_achievements self with
    | [] => info
    | _ => (info ++ ["Notable Achievements:"])
             ++ map (λ achievement, "  - " +:+ achievement) (notable_achievements self)
    end in
  if_truthy (cause_of_death self) (λ c, info ++ ["Cause of Death: " +:+ c]) info.

(** [RomanEmperor.__str__]. *)
Definition __str__ (self : RomanEmperor) : string := join nl (info self).

(** ** Built-ins the queries call *)

Section Builtins.
Context {A : Type}.

(** [l[:n]]: a negative [n] counts from the end, and the bound is clipped
    to the list, so no [n] is an error. *)
Definition slice_to (n : Z) (l : list A) : list A :=
  let len := Z.of_nat (length l) in
  let stop := if n <? 0 then Z.max (len + n) 0 else Z.min n len in
  take (Z.to_nat stop) l.

Variable key : A → Z.

(** One step of the stable sort: [x], which stood before every item of
    [l], goes in front of the first item whose key is not smaller. *)
Fixpoint insert_by (x : A) (l : list A) : list A :=
  match l with
  | [] => [x]
  | y :: l' => if key y <? key x then y :: insert_by x l' else x :: y :: l'
  end.

(** [list.sort(key=key)]: ascending and stable. *)
Definition sort_by (l : list A) : list A := foldr insert_by [] l.

(** [sorted(iterable, key=key, reverse=reverse)]: a new list; with
    [reverse] the list is reversed, sorted and reversed again, which keeps
    items of equal key in their original order. *)
Definition sorted (iterable : list A) (reverse : bool) : list A :=
  if reverse then rev (sort_by (rev iterable)) else sort_by iterable.
End Builtins.

(** The text has ASCII characters only: every byte is below 128. *)
Fixpoint is_ascii (s : string) : bool :=
  match s with
  | EmptyString => true
  | String c s' => (Ascii.N_of_ascii c <? 128)%N && is_ascii s'
  end.

(** The lower case of an ASCII character: the letters A to Z go to a to z,
    every other character stays. *)
Definition lower_char (c : Ascii.ascii) : Ascii.ascii :=
  let n := Ascii.N_of_ascii c in
  if ((65 <=? n) && (n <=? 90))%N then Ascii.ascii_of_N (n + 32) else c.

(** [str.lower] on a text that is all ASCII. *)
Fixpoint ascii_lower (s : string) : string :=
  match s with
  | EmptyString => EmptyString
  | String c s' => String (lower_char c) (ascii_lower s')
  end.

(** [str.lower] with a given lowering of the texts that are not all ASCII. *)
Definition lower_with (table : string → string) (s : string) : string :=
  if is_ascii s then ascii_lower s else table s.

(** On a text with characters outside ASCII, [str.lower] follows the
    Unicode character database, which is not part of this program:
    [unicode_lower] stands for that lowering.  What is used of it is that
    lowering a lowered text changes nothing. *)
Class UnicodeLower := {
  unicode_lower : string → string;
  unicode_lower_idemp :
    ∀ s, lower_with unicode_lower (lower_with unicode_lower s)
         = lower_with unicode_lower s
}.

(** [s.lower()]. *)
Definition lower `{!UnicodeLower} (s : string) : string :=
  lower_with unicode_lower s.

(** [s in t] for two texts: [s] occurs in [t] as a substring. *)
Fixpoint str_in (s t : string) : bool :=
  String.prefix s t ||
  match t with
  | EmptyString => false
  | String _ t' => str_in s t'
  end.

(** ** class RomanEmpire *)

Record RomanEmpire := {
  emperors : list RomanEmperor;
  dynasties : gset string
}.

(** [RomanEmpire.__init__]. *)
Definition RomanEmpire__init__ : RomanEmpire :=
  {| emperors := []; dynasties := ∅ |}.

Definition add_emperor (emperor : RomanEmperor) (self : RomanEmpire) : RomanEmpire :=
  {| emperors := emperors self ++ [emperor];
     dynasties := if_truthy (dynasty emperor)
                    (λ d, dynasties self ∪ {[d]}) (dynasties self) |}.

Definition get_emperor_by_name `{!UnicodeLower} (name' : string)
    (self : RomanEmpire) : option RomanEmperor :=
  (fix loop (l : list RomanEmperor) : option RomanEmperor :=
     match l with
     | [] => None
     | emperor :: l' =>
         if str_in (lower name') (lower (name emperor)) then Some emperor
         else loop l'
     end) (emperors self).

Definition get_emperor_by_year (year : Z) (self : RomanEmpire) : list RomanEmperor :=
  fold_left
    (λ ruling_emperors emperor,
       if (reign_start emperor <=? year) && (year <=? reign_end emperor)
       then ruling_emperors ++ [emperor]
       else ruling_emperors)
    (emperors self) [].

Definition get_emperors_by_dynasty (dynasty' : option string) (self : RomanEmpire)
    : list RomanEmperor :=
  List.filter (λ emperor, bool_decide (dynasty emperor = dynasty')) (emperors self).

Definition get_emperors_by_period (start_year end_year : Z) (self : RomanEmpire)
    : list RomanEmperor :=
  List.filter
    (λ emperor, negb ((reign_end emperor <? start_year)
                      || (reign_start emperor >? end_year)))
    (emperors self).

Definition get_emperors_by_zodiac (zodiac_sign : option string) (self : RomanEmpire)
    : list RomanEmperor :=
  List.filter (λ emperor, bool_decide (zodiac emperor = zodiac_sign)) (emperors self).

Definition get_longest_reigning (top_n : Z) (self : RomanEmpire) : list RomanEmperor :=
  slice_to top_n (sorted reign_duration (emperors self) true).

Definition get_shortest_reigning (top_n : Z) (self : RomanEmpire) : list RomanEmperor :=
  slice_to top_n (sorted reign_duration (emperors self) false).

Definition get_oldest_at_death (top_n : Z) (self : RomanEmpire) : list RomanEmperor :=
  slice_to top_n (sorted age_at_death (emperors self) true).

Definition get_youngest_at_accession (top_n : Z) (self : RomanEmpire)
    : list RomanEmperor :=
  slice_to top_n (sorted age_at_accession (emperors self) false).

Definition get_most_achievements (top_n : Z) (self : RomanEmpire) : list RomanEmperor :=
  slice_to top_n
    (sorted (λ x, Z.of_nat (length (notable_achievements x))) (emperors self) true).

(** The inner loop of [get_emperors_by_wife] over the wives of one
    [emperor]: the first match appends the record and leaves the loop. *)
Fixpoint wives_loop `{!UnicodeLower} (wife_name : string) (emperor : RomanEmperor)
    (wives' : list string) (emperors_with_wife : list RomanEmperor)
    : list RomanEmperor :=
  match wives' with
  | [] => emperors_with_wife
  | wife :: rest =>
      if str_in (lower wife_name) (lower wife)
      then emperors_with_wife ++ [emperor]
      else wives_loop wife_name emperor rest emperors_with_wife
  end.

Definition get_emperors_by_wife `{!UnicodeLower} (wife_name : string)
    (self : RomanEmpire) : list RomanEmperor :=
  fold_left
    (λ emperors_with_wife emperor,
       wives_loop wife_name emperor (wives emperor) emperors_with_wife)
    (emperors self) [].

(** ** create_roman_empire: the seed records *)

Definition augustus : RomanEmperor :=
  RomanEmperor__init__ "Augustus (Octavian)" (-63) 14 (-27) 14
    (Some "Julio-Claudian")
    (Some [ "First Roman Emperor";
            "Established the Pax Romana (Roman Peace)";
            "Rebuilt much of Rome's infrastructure";
            "Established a standing army and Praetorian Guard" ])
    (Some "Natural causes") None None
    (Some [ "Clodia Pulchra (divorced)";
            "Scribonia (divorced)";
            "Livia Drusilla" ])
    (Some "Libra").

Definition tiberius : RomanEmperor :=
  RomanEmperor__init__ "Tiberius" (-42) 37 14 37
    (Some "Julio-Claudian")
    (Some [ "Expanded the empire in Germania";
            "Reformed the imperial treasury";
            "Military victories in Pannonia and Illyricum" ])
    (Some "Either natural causes or murdered by Caligula") (Some "Augustus") None
    (Some [ "Vipsania Agrippina (divorced)";
            "Julia the Elder (Augustus's daughter)" ])
    (Some "Scorpio").

Definition caligula : RomanEmperor :=
  RomanEmperor__init__ "Caligula (Gaius)" 12 41 37 41
    (Some "Julio-Claudian")
    (Some [ "Built new aqueducts and harbors";
            "Annexed Mauretania" ])
    (Some "Assassinated by Praetorian Guard") (Some "Tiberius") None
    (Some [ "Junia Claudilla";
            "Livia Orestilla (briefly)";
            "Lollia Paulina (briefly)";
            "Milonia Caesonia" ])
    (Some "Virgo").

Definition claudius : RomanEmperor :=
  RomanEmperor__init__ "Claudius" (-10) 54 41 54
    (Some "Julio-Claudian")
    (Some [ "Conquered Britain";
            "Expanded the imperial bureaucracy";
            "Built many public works including the Aqua Claudia aqueduct";
            "Reformed the legal system" ])
    (Some "Poisoned (likely by his wife Agrippina)") (Some "Caligula") None
    (Some [ "Plautia Urgulanilla (divorced)";
            "Aelia Paetina (divorced)";
            "Valeria Messalina (executed)";
            "Agrippina the Younger (his niece)" ])
    (Some "Leo").

Definition nero : RomanEmperor :=
  RomanEmperor__init__ "Nero" 37 68 54 68
    (Some "Julio-Claudian")
    (Some [ "Built the Domus Aurea (Golden House)";
            "Initially popular for tax reforms";
            "Diplomatic solution to conflict with Parthia" ])
    (Some "Suicide after being declared a public enemy") (Some "Claudius") None
    (Some [ "Claudia Octavia (executed)";
            "Poppaea Sabina (died; possibly kicked to death by Nero)";
            "Statilia Messalina" ])
    (Some "Sagittarius").

Definition galba : RomanEmperor :=
  RomanEmperor__init__ "Galba" (-3) 69 68 69
    (Some "Year of the Four Emperors")
    (Some [ "First emperor in the Year of the Four Emperors";
            "Attempted financial reforms" ])
    (Some "Assassinated in a coup led by Otho") (Some "Nero") None
    (Some [])
    (Some "Capricorn").

Definition otho : RomanEmperor :=
  RomanEmperor__init__ "Otho" 32 69 69 69
    (Some "Year of the Four Emperors")
    (Some [ "Former governor of Lusitania";
            "Briefly recognized by the Senate" ])
    (Some "Suicide after defeat in battle") (Some "Galba") None
    (Some [ "Poppaea Sabina (later married Nero)" ])
    (Some "Aries").

Definition vitellius : RomanEmperor :=
  RomanEmperor__init__ "Vitellius" 15 69 69 69
    (Some "Year of the Four Emperors")
    (Some [ "Former governor of Germania Inferior";
            "Lavish banquets and entertainments" ])
    (Some "Executed by Vespasian's troops") (Some "Otho") None
    (Some [ "Petronia";
            "Galeria Fundana" ])
    (Some "Virgo").

Definition vespasian : RomanEmperor :=
  RomanEmperor__init__ "Vespasian" 9 79 69 79
    (Some "Flavian")
    (Some [ "Restored stability after civil war";
            "Began construction of the Colosseum";
            "Financial reforms and balanced budget";
            "Conquered Judaea and destroyed the Temple in Jerusalem" ])
    (Some "Natural causes") (Some "Vitellius") None
    (Some [ "Flavia Domitilla";
            "Caenis (concubine after Domitilla's death)" ])
    (Some "Scorpio").

Definition titus : RomanEmperor :=
  RomanEmperor__init__ "Titus" 39 81 79 81
    (Some "Flavian")
    (Some [ "Completed the Colosseum";
            "Handled the eruption of Mount Vesuvius";
            "Provided relief after a fire in Rome" ])
    (Some "Fever (possibly malaria)") (Some "Vespasian") None
    (Some [ "Arrecina Tertulla (died)";
            "Marcia Furnilla (divorced)" ])
    (Some "Capricorn").

Definition domitian : RomanEmperor :=
  RomanEmperor__init__ "Domitian" 51 96 81 96
    (Some "Flavian")
    (Some [ "Strengthened the economy and currency";
            "Expanded the border fortifications";
            "Major building programs in Rome";
            "Military campaigns in Germania and Dacia" ])
    (Some "Assassinated in palace conspiracy") (Some "Titus") None
    (Some [ "Domitia Longina" ])
    (Some "Scorpio").

Definition nerva : RomanEmperor :=
  RomanEmperor__init__ "Nerva" 30 98 96 98
    (Some "Nerva-Antonine")
    (Some [ "Established the tradition of adoptive succession";
            "Land reforms to help the poor";
            "Reduced taxes and improved the grain supply" ])
    (Some "Natural causes") (Some "Domitian") None
    (Some [])
    (Some "Aquarius").

Definition trajan : RomanEmperor :=
  RomanEmperor__init__ "Trajan" 53 117 98 117
    (Some "Nerva-Antonine")
    (Some [ "Expanded the Empire to its greatest territorial extent";
            "Conquered Dacia and its gold mines";
            "Extensive public building program";
            "Created alimenta welfare program for poor children";
            "Trajan's Column and Trajan's Forum" ])
    (Some "Illness (possibly stroke)") (Some "Nerva") None
    (Some [ "Pompeia Plotina" ])
    (Some "Virgo").

Definition hadrian : RomanEmperor :=
  RomanEmperor__init__ "Hadrian" 76 138 117 138
    (Some "Nerva-Antonine")
    (Some [ "Built Hadrian's Wall in Britain";
            "Extensive traveling throughout the empire";
            "Promoted Greek culture (philhellenism)";
            "Built the Pantheon in its current form";
            "Built his massive villa at Tivoli" ])
    (Some "Heart failure") (Some "Trajan") None
    (Some [ "Vibia Sabina (Trajan's grandniece)" ])
    (Some "Aquarius").

Definition antoninus_pius : RomanEmperor :=
  RomanEmperor__init__ "Antoninus Pius" 86 161 138 161
    (Some "Nerva-Antonine")
    (Some [ "One of the most peaceful reigns";
            "Effective administration and sound finances";
            "Legal reforms protecting slaves and orphans";
            "Built the Antonine Wall in Scotland" ])
    (Some "Natural causes") (Some "Hadrian") None
    (Some [ "Faustina the Elder" ])
    (Some "Virgo").

Definition marcus_aurelius : RomanEmperor :=
  RomanEmperor__init__ "Marcus Aurelius" 121 180 161 180
    (Some "Nerva-Antonine")
    (Some [ "Philosopher emperor who wrote 'Meditations'";
            "Successfully defended borders against Germanic tribes";
            "Dealt with the Antonine Plague";
            "Last of the 'Five Good Emperors'" ])
    (Some "Illness (possibly plague)") (Some "Antoninus Pius") None
    (Some [ "Faustina the Younger (daughter of Antoninus Pius)" ])
    (Some "Aries").

Definition commodus : RomanEmperor :=
  RomanEmperor__init__ "Commodus" 161 192 180 192
    (Some "Nerva-Antonine")
    (Some [ "Ended wars with Germanic tribes";
            "Presented himself as Hercules";
            "Participated as a gladiator in the Colosseum" ])
    (Some "Strangled in his bath after failed poisoning") (Some "Marcus Aurelius") None
    (Some [ "Bruttia Crispina (exiled and later executed)" ])
    (Some "Virgo").

Definition septimius_severus : RomanEmperor :=
  RomanEmperor__init__ "Septimius Severus" 145 211 193 211
    (Some "Severan")
    (Some [ "Military reforms favoring the army";
            "Campaigns in Parthia and Britain";
            "Increased the role of the military in government";
            "Restored stability after civil war" ])
    (Some "Illness during campaign in Britain") (Some "Pertinax/Didius Julianus") None
    (Some [ "Paccia Marciana (died)";
            "Julia Domna (Syrian noblewoman)" ])
    (Some "Aries").

Definition caracalla : RomanEmperor :=
  RomanEmperor__init__ "Caracalla" 188 217 211 217
    (Some "Severan")
    (Some [ "Constitutio Antoniniana (granted citizenship to all free men)";
            "Built the massive Baths of Caracalla";
            "Military campaigns against Germanic tribes and Parthians";
            "Doubled pay for soldiers" ])
    (Some "Assassinated by a disgruntled soldier") (Some "Septimius Severus") None
    (Some [ "Fulvia Plautilla (executed)" ])
    (Some "Aries").

Definition diocletian : RomanEmperor :=
  RomanEmperor__init__ "Diocletian" 244 311 284 305
    (Some "Tetrarchy")
    (Some [ "Ended the Crisis of the Third Century";
            "Established the Tetrarchy (rule of four)";
            "Administrative reforms dividing the empire";
            "Economic reforms including price controls";
            "Major persecution of Christians" ])
    (Some "Natural causes (retired)") (Some "Numerian") None
    (Some [ "Prisca" ])
    (Some "Capricorn").

Definition constantine : RomanEmperor :=
  RomanEmperor__init__ "Constantine the Great" 272 337 306 337
    (Some "Constantinian")
    (Some [ "First Christian emperor";
            "Edict of Milan (religious tolerance)";
            "Founded Constantinople as new capital";
            "Convened the First Council of Nicaea";
            "Reunited the empire after civil wars";
            "Created new government and military structure" ])
    (Some "Illness") (Some "Constantius I Chlorus (in the West)") None
    (Some [ "Minervina";
            "Fausta (daughter of Maximian)" ])
    (Some "Pisces").

(** [emperor.successor = other], where both are records of the collection:
    the record at position [i] now refers to the one at position [j].  The
    list holds the very objects the assignment mutates, so the change is made
    in the list. *)
Definition with_successor (s : option nat) (e : RomanEmperor) : RomanEmperor :=
  {| name := name e; birth := birth e; death := death e;
     reign_start := reign_start e; reign_end := reign_end e;
     dynasty := dynasty e; notable_achievements := notable_achievements e;
     cause_of_death := cause_of_death e; predecessor := predecessor e;
     successor := s; wives := wives e; zodiac := zodiac e |}.

Definition set_successor (self : RomanEmpire) (ij : nat * nat) : RomanEmpire :=
  {| emperors := alter (with_successor (Some (snd ij))) (fst ij) (emperors self);
     dynasties := dynasties self |}.

(** The records in the order of the loop that adds them. *)
Definition seed : list RomanEmperor :=
  [ augustus; tiberius; caligula; claudius; nero; galba; otho; vitellius;
    vespasian; titus; domitian; nerva; trajan; hadrian; antoninus_pius;
    marcus_aurelius; commodus; septimius_severus; caracalla; diocletian;
    constantine ].

(** The assignments under "Set successors", from [augustus.successor =
    tiberius] (positions 0 and 1) to [marcus_aurelius.successor = commodus]
    (positions 15 and 16). *)
Definition successors : list (nat * nat) :=
  [ (0, 1); (1, 2); (2, 3); (3, 4); (4, 5); (5, 6); (6, 7); (7, 8); (8, 9);
    (9, 10); (10, 11); (11, 12); (12, 13); (13, 14); (14, 15); (15, 16) ]%nat.

(** [for emperor in l: empire.add_emperor(emperor)]. *)
Definition add_emperors (l : list RomanEmperor) (empire : RomanEmpire) : RomanEmpire :=
  fold_left (λ empire emperor, add_emperor emperor empire) l empire.

Definition create_roman_empire : RomanEmpire :=
  let empire := RomanEmpire__init__ in
  let empire := add_emperors seed empire in
  let empire := fold_left set_successor successors empire in
  empire.

(** ** Notions the properties are stated with *)

(** The set of dynasty labels that are present, the empty text included:
    every value of [dynasty] other than [None]. *)
Definition present_dynasties (l : list RomanEmperor) : gset string :=
  list_to_set (omap dynasty l).

(** The set of dynasty labels that are truthy: present and not empty. *)
Definition truthy_dynasties (l : list RomanEmperor) : gset string :=
  list_to_set (omap (λ r, if_truthy (dynasty r) Some None) l).

(** What a top-N query does at the ends of the range of [top_n], for the
    [key] and the direction it sorts by.  [all] is the whole collection
    sorted: the same records, in the order of the key, records of equal key
    in insertion order. *)
Definition top_n_boundaries (query : Z → RomanEmpire → list RomanEmperor)
    (key : RomanEmperor → Z) (reverse : bool) : Prop :=
  ∀ (top_n : Z) (self : RomanEmpire),
    let all := sorted key (emperors self) reverse in
    all ≡ₚ emperors self
    ∧ StronglySorted
        (λ a b, if reverse then key b ≤ key a else key a ≤ key b) all
    ∧ (∀ k, filter (λ r, key r = k) all = filter (λ r, key r = k) (emperors self))
    ∧ (Z.of_nat (length (emperors self)) ≤ top_n → query top_n self = all)
    ∧ (top_n = 0 → query top_n self = [])
    ∧ (0 ≤ top_n → query top_n self = take (Z.to_nat top_n) all)
    ∧ (top_n < 0 →
       query top_n self = take (length all - Z.to_nat (- top_n)) all).

(** Two ASCII characters are the same up to case: they are equal, or one
    is a capital letter and the other the small letter 32 places after it. *)
Definition same_letter (c d : Ascii.ascii) : Prop :=
  let m := Ascii.N_of_ascii c in
  let n := Ascii.N_of_ascii d in
  (m = n ∨ (65 ≤ m ≤ 90 ∧ n = m + 32) ∨ (65 ≤ n ≤ 90 ∧ m = n + 32))%N.

(** Two texts are the same up to the case of their ASCII letters. *)
Inductive case_aside : string → string → Prop :=
  | case_aside_nil : case_aside "" ""
  | case_aside_cons (c d : Ascii.ascii) (s t : string) :
      same_letter c d → case_aside s t → case_aside (String c s) (String d t).

(** The text contains the fragment as a substring, case aside.  For ASCII
    texts this is said without [lower]: some part of the text is the
    fragment up to the case of its letters.  With characters outside ASCII
    it is what the lowering of the Unicode database makes of the two. *)
Definition contains_case_aside `{!UnicodeLower} (fragment text : string) : Prop :=
  if is_ascii fragment && is_ascii text
  then ∃ pre part post, text = pre +:+ part +:+ post ∧ case_aside part fragment
  else ∃ pre post, lower text = pre +:+ lower fragment +:+ post.

(** A wife entry contains the fragment as a substring, case aside. *)
Definition wife_matches `{!UnicodeLower} (fragment : string) (r : RomanEmperor)
    : Prop :=
  ∃ wife, wife ∈ wives r ∧ contains_case_aside fragment wife.

(** The lowering that leaves every text that is not all ASCII as it is;
    it serves to run the queries on ASCII texts, where the Unicode database
    is not consulted. *)
Definition ascii_only : UnicodeLower.
Proof.
  refine {| unicode_lower := λ s, s |}.
  assert (∀ c, (Ascii.N_of_ascii (lower_char c) <? 128)%N
               = (Ascii.N_of_ascii c <? 128)%N) as Hchar.
  { intros c. destruct c as [[] [] [] [] [] [] [] []]; reflexivity. }
  assert (∀ c, lower_char (lower_char c) = lower_char c) as Hidem.
  { intros c. destruct c as [[] [] [] [] [] [] [] []]; reflexivity. }
  assert (∀ s, is_ascii (ascii_lower s) = is_ascii s) as Hascii.
  { induction s as [|c s IH]; simpl; [done|]. by rewrite Hchar, IH. }
  assert (∀ s, ascii_lower (ascii_lower s) = ascii_lower s) as Hlower.
  { induction s as [|c s IH]; simpl; [done|]. by rewrite Hidem, IH. }
  intros s. unfold lower_with.
  destruct (is_ascii s) eqn:Hs.
  - by rewrite Hascii, Hs, Hlower.
  - by rewrite Hs.
Defined.

(** A record whose dynasty and zodiac are the empty text, and one where
    both are absent. *)
Definition empty_labels : RomanEmperor :=
  RomanEmperor__init__ "Anonymous" 200 250 230 250 (Some "") None None None None
    None (Some "").

Definition absent_labels : RomanEmperor :=
  RomanEmperor__init__ "Anonymous" 200 250 230 250 None None None None None
    None None.

(** A record whose zodiac is the empty text and whose dynasty is not. *)
Definition empty_zodiac : RomanEmperor :=
  RomanEmperor__init__ "Anonymous" 200 250 230 250 (Some "Flavian") None None None
    None None (Some "").

(** A record with two wife entries that contain the same fragment. *)
Definition two_matching_wives : RomanEmperor :=
  RomanEmperor__init__ "Anonymous" 200 250 230 250 None None None None None
    (Some [ "Poppaea Sabina"; "Livia"; "POPPAEA the Younger" ]) None.

(** ** The object store

    A Python list is an object: two names can refer to the same list, and
    [list.sort] changes the list it is called on.  To say what a query does
    to [self.emperors], the queries that sort are given a second time over a
    store of list objects, where [self.emperors] is a reference. *)

Module Store.

(** A reference to a list object. *)
Abbreviation ref := nat.

(** The list objects that exist, by reference. *)
Abbreviation store := (gmap ref (list RomanEmperor)).

(** A computation reads and changes the store and returns a value, or
    fails on a reference to no object. *)
Definition M (A : Type) : Type := store → option (A * store).

Definition ret {A} (a : A) : M A := λ σ, Some (a, σ).

Definition bind {A B} (m : M A) (k : A → M B) : M B :=
  λ σ, match m σ with
       | Some (a, σ') => k a σ'
       | None => None
       end.

Notation "x <~ m ;; k" := (bind m (λ x, k))
  (at level 100, m at next level, right associativity).

(** Reading the items of a list object. *)
Definition items (r : ref) : M (list RomanEmperor) :=
  λ σ, match σ !! r with
       | Some l => Some (l, σ)
       | None => None
       end.

(** A new list object holding [l]. *)
Definition new_list (l : list RomanEmperor) : M ref :=
  λ σ, let r := fresh (dom σ) in Some (r, <[r:=l]> σ).

(** [r.sort(key=key, reverse=reverse)]: sorts the object [r] in place,
    into the order [sorted] gives its items. *)
Definition list_sort (key : RomanEmperor → Z) (reverse : bool) (r : ref) : M unit :=
  λ σ, match σ !! r with
       | Some l => Some (tt, <[r:=sorted key l reverse]> σ)
       | None => None
       end.

(** [sorted(iterable, key=key, reverse=reverse)]: copies the items into a
    new list, sorts the new list in place and returns it. *)
Definition sorted (key : RomanEmperor → Z) (iterable : ref) (reverse : bool) : M ref :=
  l <~ items iterable ;;
  newlist <~ new_list l ;;
  _ <~ list_sort key reverse newlist ;;
  ret newlist.

(** [r[:n]]: a new list object. *)
Definition getslice (n : Z) (r : ref) : M ref :=
  l <~ items r ;;
  new_list (slice_to n l).

(** A [RomanEmpire] object; of its attributes the queries below read
    [emperors], a reference to a list object. *)
Record RomanEmpire := { emperors : ref }.

Definition get_longest_reigning (top_n : Z) (self : RomanEmpire) : M ref :=
  s <~ sorted reign_duration (emperors self) true ;; getslice top_n s.

Definition get_shortest_reigning (top_n : Z) (self : RomanEmpire) : M ref :=
  s <~ sorted reign_duration (emperors self) false ;; getslice top_n s.

Definition get_oldest_at_death (top_n : Z) (self : RomanEmpire) : M ref :=
  s <~ sorted age_at_death (emperors self) true ;; getslice top_n s.

Definition get_youngest_at_accession (top_n : Z) (self : RomanEmpire) : M ref :=
  s <~ sorted age_at_accession (emperors self) false ;; getslice top_n s.

Definition get_most_achievements (top_n : Z) (self : RomanEmpire) : M ref :=
  s <~ sorted (λ x, Z.of_nat (length (notable_achievements x))) (emperors self) true ;;
  getslice top_n s.

End Store.

(** The five top-N queries, each over the store and as a function of the
    collection. *)
Definition top_n_queries
    : list ((Z → Store.RomanEmpire → Store.M Store.ref)
            * (Z → RomanEmpire → list RomanEmperor)) :=
  [ (Store.get_longest_reigning, get_longest_reigning);
    (Store.get_shortest_reigning, get_shortest_reigning);
    (Store.get_oldest_at_death, get_oldest_at_death);
    (Store.get_youngest_at_accession, get_youngest_at_accession);
    (Store.get_most_achievements, get_most_achievements) ].

(** The name of a record contains the fragment as a substring, case aside. *)
Definition name_matches `{!UnicodeLower} (fragment : string) (r : RomanEmperor)
    : Prop :=
  contains_case_aside fragment (name r).

(** The five top-N queries with the key and the direction each sorts by. *)
Definition top_n_specs
    : list ((Z → RomanEmpire → list RomanEmperor) * (RomanEmperor → Z) * bool) :=
  [ (get_longest_reigning, reign_duration, true);
    (get_shortest_reigning, reign_duration, false);
    (get_oldest_at_death, age_at_death, true);
    (get_youngest_at_accession, age_at_accession, false);
    (get_most_achievements, λ x, Z.of_nat (length (notable_achievements x)), true) ].

(** [a] may stand before [b] in a list sorted by [key] in the direction
    [reverse]. *)
Definition in_order (key : RomanEmperor → Z) (reverse : bool) (a b : RomanEmperor)
    : Prop :=
  if reverse then key b ≤ key a else key a ≤ key b.

(** ** main: the zodiac listing and the loop that asks for a year *)

(** [set(emperor.zodiac for emperor in roman_empire.emperors if
    emperor.zodiac)]. *)
Definition zodiac_signs (roman_empire : RomanEmpire) : gset string :=
  list_to_set
    (omap (λ emperor, if_truthy (zodiac emperor) Some None) (emperors roman_empire)).

(** What the loop does at the terminal: [input(prompt)] shows the prompt
    and reads a line, [print(text)] writes a line. *)
Inductive event :=
  | Input (prompt : string)
  | Print (text : string).

(** How the loop ends: by [break], or by the [EOFError] that [input] raises
    when no line is left, which the loop does not catch. *)
Inductive ending :=
  | Break
  | EOFError.

Definition year_prompt : string :=
  "Enter a year to find who was emperor (e.g., 14, -27, or 'exit' to quit): ".

(** ['CE' if year >= 0 else 'BCE']. *)
Definition era (year : Z) : string := if year >=? 0 then "CE" else "BCE".

Section YearLoop.
(** [int(text)], [None] where it raises [ValueError]; which texts it reads
    as an integer is not fixed here. *)
Variable int : string → option Z.
Context `{!UnicodeLower}.

(** The body of the [try] after the test for "exit", with its [except]. *)
Definition answer (roman_empire : RomanEmpire) (year_input : string) : list event :=
  match int year_input with
  | Some year =>
      match get_emperor_by_year year roman_empire with
      | [] =>
          [ Print (nl +:+ "No emperor in our database ruled in the year "
                   +:+ pretty year +:+ " " +:+ era year +:+ ".") ]
      | emperors =>
          Print (nl +:+ "In the year " +:+ pretty year +:+ " " +:+ era year
                 +:+ ", the ruling emperor(s) were:")
          :: map (λ emp, Print (nl +:+ __str__ emp)) emperors
      end
  | None => [ Print "Please enter a valid year (integer) or 'exit' to quit." ]
  end.

(** The [while True] loop of [main] on the lines [stdin] still to be read;
    every turn reads one line. *)
Fixpoint year_loop (roman_empire : RomanEmpire) (stdin : list string)
    : list event * ending :=
  match stdin with
  | [] => ([Input year_prompt], EOFError)
  | year_input :: stdin' =>
      if String.eqb (lower year_input) "exit"
      then ([Input year_prompt], Break)
      else
        let '(events, e) := year_loop roman_empire stdin' in
        (Input year_prompt :: answer roman_empire year_input ++ Print "" :: events, e)
  end.
End YearLoop.

(** The lines of an optional section of the rendered text: nothing for an
    empty list, else the heading and one indented line for each item. *)
Definition section_lines (heading : string) (items : list string) : list string :=
  match items with
  | [] => []
  | _ => heading :: map (λ item, "  - " +:+ item) items
  end.

(** The text has no line feed. *)
Fixpoint single_line (s : string) : bool :=
  match s with
  | EmptyString => true
  | String c s' => negb (Ascii.eqb c (Ascii.ascii_of_nat 10)) && single_line s'
  end.

(** [text.split("\n")]: the lines of a text, cut at its line feeds. *)
Fixpoint lines_of (s : string) : list string :=
  match s with
  | EmptyString => [""]
  | String c s' =>
      if Ascii.eqb c (Ascii.ascii_of_nat 10) then "" :: lines_of s'
      else
        match lines_of s' with
        | [] => [String c ""]
        | line :: rest => String c line :: rest
        end
  end.

(** None of the texts of the record that are rendered has a line feed. *)
Definition single_line_fields (r : RomanEmperor) : Prop :=
  single_line (name r) = true
  ∧ (∀ d, dynasty r = Some d → single_line d = true)
  ∧ (∀ z, zodiac r = Some z → single_line z = true)
  ∧ (∀ c, cause_of_death r = Some c → single_line c = true)
  ∧ Forall (λ wife, single_line wife = true) (wives r)
  ∧ Forall (λ achievement, single_line achievement = true) (notable_achievements r).

(** The event is a read from the terminal. *)
Definition is_input (e : event) : bool :=
  match e with
  | Input _ => true
  | Print _ => false
  end.

(** * Properties *)

(** ** Loops and comprehensions as filters *)

Section Filters.
Context {A : Type}.

(** A loop that appends the items passing a test builds the filtered list,
    after what was accumulated before. *)
Lemma fold_left_append_filter (p : A → bool) (l acc : list A) :
  fold_left (λ acc x, if p x then acc ++ [x] else acc) l acc
  = acc ++ List.filter p l.
Proof.
  revert acc. induction l as [|x l IH]; intros acc; simpl.
  - by rewrite app_nil_r.
  - rewrite IH. destruct (p x); [|done].
    by rewrite <- app_assoc.
Qed.

(** The filter by a boolean test is the filter by the property the test
    decides. *)
Lemma bool_filter_prop (p : A → bool) (P : A → Prop) `{!∀ x, Decision (P x)}
    (l : list A) :
  (∀ x, p x = true ↔ P x) → List.filter p l = filter P l.
Proof.
  intros Hp. induction l as [|x l IH]; [done|]. simpl.
  destruct (p x) eqn:Hx.
  - rewrite filter_cons_True by (by apply Hp). by rewrite IH.
  - rewrite filter_cons_False; [done|].
    intros HP. apply Hp in HP. congruence.
Qed.
End Filters.

(** ** Derived computations *)

(** C1: for every record the three derived computations are the stated
    differences of stored fields; they are total functions on integers, so
    there is no error case. *)
Theorem derived_computations (r : RomanEmperor) :
  reign_duration r = reign_end r - reign_start r
  ∧ age_at_death r = death r - birth r
  ∧ age_at_accession r = reign_start r - birth r.
Proof. by repeat split. Qed.

(** ** Queries by year and by period *)

Lemma get_emperor_by_year_filter (year : Z) (self : RomanEmpire) :
  get_emperor_by_year year self
  = filter (λ r, reign_start r ≤ year ≤ reign_end r) (emperors self).
Proof.
  unfold get_emperor_by_year.
  rewrite (fold_left_append_filter
             (λ e, (reign_start e <=? year) && (year <=? reign_end e))).
  simpl. apply bool_filter_prop. intros e.
  rewrite andb_true_iff, !Z.leb_le. done.
Qed.

(** C2: [get_emperor_by_year] returns exactly the records whose reign
    contains the year, in insertion order: it is the collection filtered by
    [reign_start <= year <= reign_end], so a record is returned if and only
    if it is in the collection and passes, the result is a subsequence of
    the collection, and it is the empty list when no record passes. *)
Theorem get_emperor_by_year_spec (year : Z) (self : RomanEmpire) :
  get_emperor_by_year year self
    = filter (λ r, reign_start r ≤ year ≤ reign_end r) (emperors self)
  ∧ (∀ r, r ∈ get_emperor_by_year year self
          ↔ r ∈ emperors self ∧ reign_start r ≤ year ≤ reign_end r)
  ∧ sublist (get_emperor_by_year year self) (emperors self)
  ∧ ((∀ r, r ∈ emperors self → ¬ (reign_start r ≤ year ≤ reign_end r))
     → get_emperor_by_year year self = []).
Proof.
  rewrite get_emperor_by_year_filter. split_and!.
  - done.
  - intros r. rewrite list_elem_of_filter. tauto.
  - apply sublist_filter.
  - intros Hnone. induction (emperors self) as [|x l IH]; [done|].
    rewrite filter_cons_False by (apply Hnone; left).
    apply IH. intros r Hr. apply Hnone. by right.
Qed.

Lemma get_emperors_by_period_filter (start_year end_year : Z) (self : RomanEmpire) :
  get_emperors_by_period start_year end_year self
  = filter (λ r, ¬ (reign_end r < start_year ∨ reign_start r > end_year))
      (emperors self).
Proof.
  unfold get_emperors_by_period. apply bool_filter_prop. intros e.
  rewrite negb_true_iff, orb_false_iff, Z.ltb_ge, Z.gtb_ltb, Z.ltb_ge. lia.
Qed.

(** C3: [get_emperors_by_period] returns exactly the records whose reign
    overlaps the period, in insertion order: it is the collection filtered
    by the overlap test, and a record of the collection is left out if and
    only if its reign ends before the period starts or starts after the
    period ends. *)
Theorem get_emperors_by_period_spec (start_year end_year : Z) (self : RomanEmpire) :
  get_emperors_by_period start_year end_year self
    = filter (λ r, ¬ (reign_end r < start_year ∨ reign_start r > end_year))
        (emperors self)
  ∧ (∀ r, r ∈ emperors self →
          (r ∉ get_emperors_by_period start_year end_year self
           ↔ reign_end r < start_year ∨ reign_start r > end_year))
  ∧ (∀ r, r ∈ get_emperors_by_period start_year end_year self
          ↔ r ∈ emperors self
            ∧ start_year ≤ reign_end r ∧ reign_start r ≤ end_year)
  ∧ sublist (get_emperors_by_period start_year end_year self) (emperors self).
Proof.
  rewrite get_emperors_by_period_filter. split_and!.
  - done.
  - intros r Hr. rewrite list_elem_of_filter. split.
    + intros Hn. destruct (decide (reign_end r < start_year ∨ reign_start r > end_year));
        [done|]. exfalso. apply Hn. by split.
    + intros Hout [Hin _]. by apply Hin.
  - intros r. rewrite list_elem_of_filter. split.
    + intros [Hn Hr]. split; [done|]. lia.
    + intros [Hr Hb]. split; [lia|done].
  - apply sublist_filter.
Qed.

(** ** The stable sort and the slice *)

Section SortFacts.
Context {A : Type} (key : A → Z).

Lemma insert_by_Permutation (x : A) (l : list A) : insert_by key x l ≡ₚ x :: l.
Proof.
  induction l as [|y l IH]; simpl; [done|].
  destruct (key y <? key x); [|done].
  rewrite IH. apply Permutation_swap.
Qed.

Lemma sort_by_Permutation (l : list A) : sort_by key l ≡ₚ l.
Proof.
  induction l as [|x l IH]; simpl; [done|].
  by rewrite insert_by_Permutation, IH.
Qed.

Lemma insert_by_sorted (x : A) (l : list A) :
  StronglySorted (λ a b, key a ≤ key b) l →
  StronglySorted (λ a b, key a ≤ key b) (insert_by key x l).
Proof.
  induction 1 as [|y l Hl IH Hy]; simpl.
  - repeat constructor.
  - destruct (key y <? key x) eqn:Hlt.
    + apply Z.ltb_lt in Hlt. constructor; [done|].
      rewrite insert_by_Permutation. constructor; [lia|done].
    + apply Z.ltb_ge in Hlt. constructor; [by constructor|].
      constructor; [done|].
      eapply Forall_impl; [exact Hy|]. simpl. intros z Hz. lia.
Qed.

Lemma sort_by_sorted (l : list A) :
  StronglySorted (λ a b, key a ≤ key b) (sort_by key l).
Proof.
  induction l as [|x l IH]; simpl; [constructor|].
  by apply insert_by_sorted.
Qed.

(** Stability: the items of any one key keep their order. *)
Lemma insert_by_stable (k : Z) (x : A) (l : list A) :
  filter (λ y, key y = k) (insert_by key x l) = filter (λ y, key y = k) (x :: l).
Proof.
  induction l as [|y l IH]; simpl; [done|].
  destruct (key y <? key x) eqn:Hlt; [|done].
  apply Z.ltb_lt in Hlt.
  rewrite (filter_cons _ y), IH, !(filter_cons _ x), (filter_cons _ y).
  repeat case_decide; done || lia.
Qed.

Lemma sort_by_stable (k : Z) (l : list A) :
  filter (λ y, key y = k) (sort_by key l) = filter (λ y, key y = k) l.
Proof.
  induction l as [|x l IH]; simpl; [done|].
  by rewrite insert_by_stable, !(filter_cons _ x), IH.
Qed.

Lemma rev_reverse (l : list A) : rev l = reverse l.
Proof. unfold reverse. by rewrite rev_alt. Qed.

Lemma StronglySorted_rev (R : relation A) (l : list A) :
  StronglySorted R l → StronglySorted (flip R) (rev l).
Proof.
  induction 1 as [|x l Hl IH Hx]; simpl; [constructor|].
  apply StronglySorted_app. split_and!; [|done|repeat constructor].
  intros a b Ha Hb. apply list_elem_of_singleton in Hb as ->.
  rewrite rev_reverse, elem_of_reverse in Ha.
  unfold flip. by eapply Forall_forall in Hx.
Qed.

Lemma filter_rev (P : A → Prop) `{!∀ x, Decision (P x)} (l : list A) :
  filter P (rev l) = rev (filter P l).
Proof. by rewrite !rev_reverse, filter_reverse. Qed.

(** [sorted] returns the items it was given, each as often as given. *)
Lemma sorted_Permutation (l : list A) (reverse : bool) : sorted key l reverse ≡ₚ l.
Proof.
  unfold sorted. destruct reverse; [|apply sort_by_Permutation].
  by rewrite <- Permutation_rev, sort_by_Permutation, <- Permutation_rev.
Qed.

Lemma sorted_length (l : list A) (reverse : bool) :
  length (sorted key l reverse) = length l.
Proof. apply Permutation_length, sorted_Permutation. Qed.

(** Ascending by key without [reverse], descending with it. *)
Lemma sorted_ascending (l : list A) :
  StronglySorted (λ a b, key a ≤ key b) (sorted key l false).
Proof. apply sort_by_sorted. Qed.

Lemma sorted_descending (l : list A) :
  StronglySorted (λ a b, key b ≤ key a) (sorted key l true).
Proof.
  unfold sorted.
  apply (StronglySorted_rev (λ a b, key a ≤ key b)), sort_by_sorted.
Qed.

(** In both directions the sort is stable. *)
Lemma sorted_stable (k : Z) (l : list A) (reverse : bool) :
  filter (λ y, key y = k) (sorted key l reverse) = filter (λ y, key y = k) l.
Proof.
  unfold sorted. destruct reverse; [|apply sort_by_stable].
  by rewrite filter_rev, sort_by_stable, filter_rev, rev_involutive.
Qed.
End SortFacts.

Section SliceFacts.
Context {A : Type}.

Lemma slice_to_all (n : Z) (l : list A) :
  Z.of_nat (length l) ≤ n → slice_to n l = l.
Proof.
  intros Hn. unfold slice_to.
  destruct (n <? 0) eqn:Hneg; [apply Z.ltb_lt in Hneg; lia|].
  apply firstn_all2. lia.
Qed.

Lemma slice_to_0 (l : list A) : slice_to 0 l = [].
Proof. unfold slice_to. simpl. by rewrite Z.min_l by lia. Qed.

Lemma slice_to_nonneg (n : Z) (l : list A) :
  0 ≤ n → slice_to n l = take (Z.to_nat n) l.
Proof.
  intros Hn. unfold slice_to.
  destruct (n <? 0) eqn:Hneg; [apply Z.ltb_lt in Hneg; lia|].
  destruct (decide (n ≤ Z.of_nat (length l))).
  - by rewrite Z.min_l by lia.
  - rewrite Z.min_r by lia. rewrite !firstn_all2; [done|lia..].
Qed.

(** A negative bound drops that many items from the end. *)
Lemma slice_to_neg (n : Z) (l : list A) :
  n < 0 → slice_to n l = take (length l - Z.to_nat (- n)) l.
Proof.
  intros Hn. unfold slice_to.
  apply Z.ltb_lt in Hn as Hneg. rewrite Hneg. f_equal. lia.
Qed.
End SliceFacts.

(** ** Top-N queries at the ends of the range *)

Lemma sorted_slice_boundaries (key : RomanEmperor → Z) (reverse : bool) :
  top_n_boundaries (λ top_n self, slice_to top_n (sorted key (emperors self) reverse))
    key reverse.
Proof.
  intros top_n self all. subst all. split_and!.
  - apply sorted_Permutation.
  - destruct reverse; [apply sorted_descending|apply sorted_ascending].
  - intros k. apply sorted_stable.
  - intros Hn. apply slice_to_all. by rewrite sorted_length.
  - intros ->. apply slice_to_0.
  - intros Hn. by apply slice_to_nonneg.
  - intros Hn. by apply slice_to_neg.
Qed.

(** C4, as the code has it: each of the five top-N queries returns the
    whole sorted collection (the same records, none added or repeated) when
    [top_n] is at least the size of the collection, and the empty list when
    [top_n] is 0; for a negative [top_n] it returns the sorted collection
    without its last [- top_n] records, which is empty only when the
    collection has no more records than that. *)
Theorem top_n_boundaries_hold :
  top_n_boundaries get_longest_reigning reign_duration true
  ∧ top_n_boundaries get_shortest_reigning reign_duration false
  ∧ top_n_boundaries get_oldest_at_death age_at_death true
  ∧ top_n_boundaries get_youngest_at_accession age_at_accession false
  ∧ top_n_boundaries get_most_achievements
      (λ x, Z.of_nat (length (notable_achievements x))) true.
Proof. split_and!; apply sorted_slice_boundaries. Qed.

(** C4 as stated fails for a negative [top_n]: with two records in the
    collection, [top_n = -1] is not positive and the query returns one
    record, not the empty list. *)
Lemma top_n_negative_not_empty :
  -1 ≤ 0
  ∧ get_longest_reigning (-1)
      (add_emperor tiberius (add_emperor augustus RomanEmpire__init__))
    = [augustus]
  ∧ get_longest_reigning (-1)
      (add_emperor tiberius (add_emperor augustus RomanEmpire__init__))
    ≠ [].
Proof. split_and!; [lia|reflexivity|discriminate]. Qed.

(** ** The set of dynasties *)

Lemma add_emperors_snoc (l : list RomanEmperor) (r : RomanEmperor) (self : RomanEmpire) :
  add_emperors (l ++ [r]) self = add_emperor r (add_emperors l self).
Proof. unfold add_emperors. by rewrite fold_left_app. Qed.

Lemma truthy_dynasties_snoc (l : list RomanEmperor) (r : RomanEmperor) :
  truthy_dynasties (l ++ [r])
  = if_truthy (dynasty r) (λ d, truthy_dynasties l ∪ {[d]}) (truthy_dynasties l).
Proof.
  unfold truthy_dynasties. rewrite omap_app, list_to_set_app_L. simpl.
  unfold if_truthy. destruct (dynasty r) as [d|]; simpl.
  - destruct (String.eqb d ""); simpl; by rewrite !(right_id_L ∅ (∪)).
  - by rewrite (right_id_L ∅ (∪)).
Qed.

Lemma elem_of_truthy_dynasties (d : string) (l : list RomanEmperor) :
  d ∈ truthy_dynasties l ↔ d ≠ "" ∧ ∃ r, r ∈ l ∧ dynasty r = Some d.
Proof.
  unfold truthy_dynasties. rewrite elem_of_list_to_set, list_elem_of_omap.
  split.
  - intros (r & Hr & Hd). unfold if_truthy in Hd.
    destruct (dynasty r) as [d'|] eqn:Hdyn; [|done].
    destruct (String.eqb d' "") eqn:He; [done|].
    injection Hd as ->. apply String.eqb_neq in He. eauto.
  - intros (Hne & r & Hr & Hd). exists r. split; [done|].
    unfold if_truthy. rewrite Hd.
    apply String.eqb_neq in Hne. by rewrite Hne.
Qed.

(** The invariant of the collection: what was added, and the truthy labels
    of what was added. *)
Lemma add_emperors_from_empty (rs : list RomanEmperor) :
  emperors (add_emperors rs RomanEmpire__init__) = rs
  ∧ dynasties (add_emperors rs RomanEmpire__init__) = truthy_dynasties rs.
Proof.
  induction rs as [|r rs [IHe IHd]] using rev_ind; [done|].
  rewrite add_emperors_snoc, truthy_dynasties_snoc. simpl.
  by rewrite IHe, IHd.
Qed.

(** C5, as the code has it: after any sequence of [add_emperor] from the
    empty collection, [emperors] holds the records added, in order, and
    [dynasties] is exactly the set of dynasty labels of those records that
    are present and not the empty text; adding a record whose label is
    already in the set leaves the set, and so its size, as it was. *)
Theorem dynasties_in_sync (rs : list RomanEmperor) :
  emperors (add_emperors rs RomanEmpire__init__) = rs
  ∧ dynasties (add_emperors rs RomanEmpire__init__)
    = truthy_dynasties (emperors (add_emperors rs RomanEmpire__init__))
  ∧ (∀ d, d ∈ dynasties (add_emperors rs RomanEmpire__init__)
          ↔ d ≠ "" ∧ ∃ r, r ∈ rs ∧ dynasty r = Some d)
  ∧ (∀ r d, dynasty r = Some d →
            d ∈ dynasties (add_emperors rs RomanEmpire__init__) →
            dynasties (add_emperor r (add_emperors rs RomanEmpire__init__))
              = dynasties (add_emperors rs RomanEmpire__init__)
            ∧ size (dynasties (add_emperor r (add_emperors rs RomanEmpire__init__)))
              = size (dynasties (add_emperors rs RomanEmpire__init__))).
Proof.
  destruct (add_emperors_from_empty rs) as [He Hd]. split_and!.
  - done.
  - by rewrite He.
  - intros d. rewrite Hd. apply elem_of_truthy_dynasties.
  - intros r d Hr Hin.
    assert (dynasties (add_emperor r (add_emperors rs RomanEmpire__init__))
            = dynasties (add_emperors rs RomanEmpire__init__)) as Heq.
    { simpl. unfold if_truthy. rewrite Hr.
      destruct (String.eqb d ""); [done|].
      rewrite (comm_L (∪)).
      apply subseteq_union_1_L. by apply singleton_subseteq_l. }
    by rewrite Heq.
Qed.

(** C5 as stated fails for a label that is present but empty: the record
    [empty_labels] has the dynasty [""], which is not [None], and after it is
    added the set of present labels holds [""] while [dynasties] is empty. *)
Lemma empty_dynasty_left_out :
  dynasty empty_labels = Some ""
  ∧ emperors (add_emperors [empty_labels] RomanEmpire__init__) = [empty_labels]
  ∧ present_dynasties (emperors (add_emperors [empty_labels] RomanEmpire__init__))
    = {[ "" ]}
  ∧ dynasties (add_emperors [empty_labels] RomanEmpire__init__) = ∅
  ∧ dynasties (add_emperors [empty_labels] RomanEmpire__init__)
    ≠ present_dynasties (emperors (add_emperors [empty_labels] RomanEmpire__init__)).
Proof.
  assert (present_dynasties (emperors (add_emperors [empty_labels] RomanEmpire__init__))
          = {[ "" ]}) as Hp.
  { unfold present_dynasties. simpl. apply (right_id_L ∅ (∪)). }
  split_and!; done.
Qed.

(** ** The seeded collection *)

Lemma seeded_emperors :
  emperors create_roman_empire
  = [ with_successor (Some 1%nat) augustus; with_successor (Some 2%nat) tiberius;
      with_successor (Some 3%nat) caligula; with_successor (Some 4%nat) claudius;
      with_successor (Some 5%nat) nero; with_successor (Some 6%nat) galba;
      with_successor (Some 7%nat) otho; with_successor (Some 8%nat) vitellius;
      with_successor (Some 9%nat) vespasian; with_successor (Some 10%nat) titus;
      with_successor (Some 11%nat) domitian; with_successor (Some 12%nat) nerva;
      with_successor (Some 13%nat) trajan; with_successor (Some 14%nat) hadrian;
      with_successor (Some 15%nat) antoninus_pius;
      with_successor (Some 16%nat) marcus_aurelius;
      commodus; septimius_severus; caracalla; diocletian; constantine ].
Proof. vm_compute. reflexivity. Qed.

Lemma seeded_reign_durations :
  map reign_duration (emperors create_roman_empire)
  = [41; 23; 4; 13; 14; 1; 0; 0; 10; 2; 15; 2; 19; 21; 23; 19; 12; 18; 6; 21; 31].
Proof. vm_compute. reflexivity. Qed.

(** C6: on the seeded collection [get_longest_reigning 3] returns the
    records at positions 0, 20 and 1 (Augustus, Constantine, Tiberius), whose
    reigns last 41, 31 and 23 years.  Every other record reigned less than 23
    years, or exactly 23 years and stands after Tiberius in insertion order,
    so these are the three greatest with ties broken by insertion order; and
    the first of them reigned more than 40 years. *)
Theorem longest_three_of_seed :
  ∃ a b c,
    emperors create_roman_empire !! 0%nat = Some a
    ∧ emperors create_roman_empire !! 20%nat = Some b
    ∧ emperors create_roman_empire !! 1%nat = Some c
    ∧ get_longest_reigning 3 create_roman_empire = [a; b; c]
    ∧ get_longest_reigning 3 create_roman_empire
      = take 3 (sorted reign_duration (emperors create_roman_empire) true)
    ∧ map name [a; b; c]
      = ["Augustus (Octavian)"; "Constantine the Great"; "Tiberius"]
    ∧ map reign_duration [a; b; c] = [41; 31; 23]
    ∧ 40 < reign_duration a
    ∧ ∀ (i : nat) r,
        emperors create_roman_empire !! i = Some r →
        i ≠ 0%nat → i ≠ 20%nat → i ≠ 1%nat →
        reign_duration r < 23 ∨ (reign_duration r = 23 ∧ (1 < i)%nat).
Proof.
  exists (with_successor (Some 1%nat) augustus), constantine,
    (with_successor (Some 2%nat) tiberius).
  split_and!; try (vm_compute; reflexivity).
  intros i r Hi H0 H20 H1.
  assert (map reign_duration (emperors create_roman_empire) !! i
          = Some (reign_duration r)) as Hd.
  { change (map reign_duration ?l) with (reign_duration <$> l).
    by rewrite list_lookup_fmap, Hi. }
  rewrite seeded_reign_durations in Hd. clear Hi.
  do 21 (destruct i as [|i]; [simpl in Hd; injection Hd as <-; lia|]).
  discriminate Hd.
Qed.

(** C7, as the code has it: on the seeded collection
    [get_emperor_by_year 69] returns four records, in insertion order: Galba,
    Otho and Vitellius, the three short-reigned records of the dynasty "Year
    of the Four Emperors", and after them Vespasian, whose reign of ten years
    starts in 69. *)
Theorem year_69_of_seed :
  ∃ g o v w,
    emperors create_roman_empire !! 5%nat = Some g
    ∧ emperors create_roman_empire !! 6%nat = Some o
    ∧ emperors create_roman_empire !! 7%nat = Some v
    ∧ emperors create_roman_empire !! 8%nat = Some w
    ∧ get_emperor_by_year 69 create_roman_empire = [g; o; v; w]
    ∧ map name [g; o; v; w] = ["Galba"; "Otho"; "Vitellius"; "Vespasian"]
    ∧ map reign_duration [g; o; v; w] = [1; 0; 0; 10]
    ∧ map dynasty [g; o; v; w]
      = [ Some "Year of the Four Emperors"; Some "Year of the Four Emperors";
          Some "Year of the Four Emperors"; Some "Flavian" ]
    ∧ reign_start w = 69.
Proof.
  exists (with_successor (Some 6%nat) galba), (with_successor (Some 7%nat) otho),
    (with_successor (Some 8%nat) vitellius), (with_successor (Some 9%nat) vespasian).
  split_and!; vm_compute; reflexivity.
Qed.

(** C7 as stated fails: the query for the year 69 returns four records, not
    three; the fourth is Vespasian. *)
Lemma year_69_returns_four :
  length (get_emperor_by_year 69 create_roman_empire) = 4%nat
  ∧ length (get_emperor_by_year 69 create_roman_empire) ≠ 3%nat
  ∧ name <$> get_emperor_by_year 69 create_roman_empire !! 3%nat = Some "Vespasian".
Proof. split_and!; [vm_compute; reflexivity|vm_compute; discriminate|vm_compute; reflexivity]. Qed.

(** ** The query by wife *)

Lemma append_cons (c : Ascii.ascii) (s t : string) :
  String c s +:+ t = String c (s +:+ t).
Proof. reflexivity. Qed.

Lemma prefix_spec (s t : string) :
  String.prefix s t = true ↔ ∃ post, t = s +:+ post.
Proof.
  revert t. induction s as [|c s IH]; intros [|c' t]; simpl.
  - split; [by exists ""|done].
  - split; [by exists (String c' t)|done].
  - split; [done|]. by intros [post Hpost].
  - destruct (Ascii.ascii_dec c c') as [->|Hne].
    + rewrite IH.
      split; intros [post Hpost]; exists post; rewrite append_cons in *; congruence.
    + split; [done|]. intros [post Hpost]. rewrite append_cons in Hpost. congruence.
Qed.

Lemma str_in_spec (s t : string) :
  str_in s t = true ↔ ∃ pre post, t = pre +:+ s +:+ post.
Proof.
  induction t as [|c t IH]; cbn [str_in]; rewrite orb_true_iff, prefix_spec.
  - split.
    + intros [[post Hpost]|]; [|done]. by exists "", post.
    + intros (pre & post & Hp). left. exists post.
      destruct pre; [done|discriminate].
  - rewrite IH. split.
    + intros [[post Hpost]|(pre & post & Hp)].
      * by exists "", post.
      * exists (String c pre), post. by rewrite append_cons, Hp.
    + intros (pre & post & Hp). destruct pre as [|c' pre].
      * left. by exists post.
      * right. exists pre, post. rewrite append_cons in Hp. congruence.
Qed.

(** *** Lowering and the case of ASCII letters *)

Lemma lower_char_code (c : Ascii.ascii) :
  Ascii.N_of_ascii (lower_char c)
  = (if (65 <=? Ascii.N_of_ascii c) && (Ascii.N_of_ascii c <=? 90)
     then Ascii.N_of_ascii c + 32 else Ascii.N_of_ascii c)%N.
Proof. destruct c as [[] [] [] [] [] [] [] []]; reflexivity. Qed.

Lemma N_of_ascii_inj (c d : Ascii.ascii) :
  Ascii.N_of_ascii c = Ascii.N_of_ascii d → c = d.
Proof.
  intros Heq. rewrite <- (Ascii.ascii_N_embedding c), <- (Ascii.ascii_N_embedding d).
  by rewrite Heq.
Qed.

Lemma lower_char_same_letter (c d : Ascii.ascii) :
  lower_char c = lower_char d ↔ same_letter c d.
Proof.
  unfold same_letter. cbv zeta. split.
  - intros Heq. apply (f_equal Ascii.N_of_ascii) in Heq.
    rewrite !lower_char_code in Heq.
    destruct (N.leb_spec 65 (Ascii.N_of_ascii c)),
      (N.leb_spec (Ascii.N_of_ascii c) 90),
      (N.leb_spec 65 (Ascii.N_of_ascii d)),
      (N.leb_spec (Ascii.N_of_ascii d) 90); simpl in Heq; lia.
  - intros Hsame. apply N_of_ascii_inj. rewrite !lower_char_code.
    destruct (N.leb_spec 65 (Ascii.N_of_ascii c)),
      (N.leb_spec (Ascii.N_of_ascii c) 90),
      (N.leb_spec 65 (Ascii.N_of_ascii d)),
      (N.leb_spec (Ascii.N_of_ascii d) 90); simpl; lia.
Qed.

Lemma ascii_lower_case_aside (s t : string) :
  ascii_lower s = ascii_lower t ↔ case_aside s t.
Proof.
  split.
  - revert t. induction s as [|c s IH]; intros [|d t] Heq; try done.
    + constructor.
    + simpl in Heq. injection Heq as Hc Hs.
      constructor; [by apply lower_char_same_letter|by apply IH].
  - induction 1 as [|c d s t Hcd _ IH]; [done|]. simpl.
    apply lower_char_same_letter in Hcd. by rewrite Hcd, IH.
Qed.

Lemma ascii_lower_app (s t : string) :
  ascii_lower (s +:+ t) = ascii_lower s +:+ ascii_lower t.
Proof.
  induction s as [|c s IH]; [done|].
  rewrite append_cons. simpl. by rewrite IH, append_cons.
Qed.

(** A lowered text splits where the text itself splits. *)
Lemma ascii_lower_split (t a b : string) :
  ascii_lower t = a +:+ b →
  ∃ t1 t2, t = t1 +:+ t2 ∧ ascii_lower t1 = a ∧ ascii_lower t2 = b.
Proof.
  revert t. induction a as [|c a IH]; intros t Heq.
  - by exists "", t.
  - destruct t as [|d t]; [done|].
    rewrite append_cons in Heq. simpl in Heq. injection Heq as Hc Ht.
    destruct (IH t Ht) as (t1 & t2 & -> & H1 & H2).
    exists (String d t1), t2. split_and!; [done| |done].
    simpl. by rewrite Hc, H1.
Qed.

(** On lowered ASCII texts the substring test finds the fragment up to the
    case of its letters. *)
Lemma str_in_ascii_lower (fragment text : string) :
  str_in (ascii_lower fragment) (ascii_lower text) = true
  ↔ ∃ pre part post, text = pre +:+ part +:+ post ∧ case_aside part fragment.
Proof.
  rewrite str_in_spec. split.
  - intros (pre' & post' & Heq).
    apply ascii_lower_split in Heq as (pre & rest & -> & _ & Hrest).
    apply ascii_lower_split in Hrest as (part & post & -> & Hpart & _).
    exists pre, part, post. split; [done|]. by apply ascii_lower_case_aside.
  - intros (pre & part & post & -> & Hpart).
    apply ascii_lower_case_aside in Hpart.
    exists (ascii_lower pre), (ascii_lower post).
    by rewrite !ascii_lower_app, Hpart.
Qed.

Lemma lower_ascii_text `{!UnicodeLower} (s : string) :
  is_ascii s = true → lower s = ascii_lower s.
Proof. intros Hs. unfold lower, lower_with. by rewrite Hs. Qed.

(** The test the two queries make is containment, case aside. *)
Lemma str_in_contains_case_aside `{!UnicodeLower} (fragment text : string) :
  str_in (lower fragment) (lower text) = true ↔ contains_case_aside fragment text.
Proof.
  unfold contains_case_aside.
  destruct (is_ascii fragment) eqn:Hf, (is_ascii text) eqn:Ht; simpl;
    try apply str_in_spec.
  rewrite !lower_ascii_text by done. apply str_in_ascii_lower.
Qed.

(** *** The loop over the wives *)

Lemma wives_loop_existsb `{!UnicodeLower} (wife_name : string) (emperor : RomanEmperor)
    (ws : list string) (acc : list RomanEmperor) :
  wives_loop wife_name emperor ws acc
  = if existsb (λ wife, str_in (lower wife_name) (lower wife)) ws
    then acc ++ [emperor] else acc.
Proof.
  induction ws as [|w ws IH]; simpl; [done|].
  by destruct (str_in (lower wife_name) (lower w)).
Qed.

Lemma existsb_wife_matches `{!UnicodeLower} (fragment : string) (r : RomanEmperor) :
  existsb (λ wife, str_in (lower fragment) (lower wife)) (wives r) = true
  ↔ wife_matches fragment r.
Proof.
  unfold wife_matches. rewrite existsb_exists. split.
  - intros (w & Hw & Hin). apply str_in_contains_case_aside in Hin.
    exists w. by rewrite list_elem_of_In.
  - intros (w & Hw & Hin). exists w.
    by rewrite <- list_elem_of_In, str_in_contains_case_aside.
Qed.

Lemma wives_fold_filter `{!UnicodeLower} (wife_name : string)
    (l acc : list RomanEmperor) :
  fold_left
    (λ emperors_with_wife emperor,
       wives_loop wife_name emperor (wives emperor) emperors_with_wife) l acc
  = acc ++ List.filter
             (λ r, existsb (λ wife, str_in (lower wife_name) (lower wife)) (wives r)) l.
Proof.
  revert acc. induction l as [|e l IH]; intros acc; simpl.
  - by rewrite app_nil_r.
  - rewrite IH, wives_loop_existsb.
    destruct (existsb _ (wives e)); [|done].
    by rewrite <- app_assoc.
Qed.

Lemma get_emperors_by_wife_filter `{!UnicodeLower} (wife_name : string)
    (self : RomanEmpire) :
  get_emperors_by_wife wife_name self
  = List.filter
      (λ r, existsb (λ wife, str_in (lower wife_name) (lower wife)) (wives r))
      (emperors self).
Proof. unfold get_emperors_by_wife. by rewrite wives_fold_filter. Qed.



(** A record with two matching wife entries is returned once, and the
    match ignores case. *)
Example two_matching_wives_once `{!UnicodeLower} :
  get_emperors_by_wife "poppaea" (add_emperor two_matching_wives RomanEmpire__init__)
  = [two_matching_wives].
Proof. reflexivity. Qed.

Example poppaea_of_seed `{!UnicodeLower} :
  map name (get_emperors_by_wife "poppaea" create_roman_empire) = ["Nero"; "Otho"].
Proof. vm_compute. reflexivity. Qed.

(** ** The queries that sort, over the store *)

Lemma sorted_getslice_run (key : RomanEmperor → Z) (reverse : bool) (top_n : Z)
    (it : Store.ref) (σ : Store.store) (es : list RomanEmperor) :
  σ !! it = Some es →
  ∃ r σ',
    Store.bind (Store.sorted key it reverse) (Store.getslice top_n) σ = Some (r, σ')
    ∧ σ' !! it = Some es
    ∧ σ ⊆ σ'
    ∧ σ !! r = None
    ∧ σ' !! r = Some (slice_to top_n (sorted key es reverse)).
Proof.
  intros Hit.
  set (s := fresh (dom σ)).
  set (σ1 := <[s:=sorted key es reverse]> (<[s:=es]> σ)).
  set (r := fresh (dom σ1)).
  assert (σ !! s = None) as Hs.
  { apply not_elem_of_dom. apply is_fresh. }
  assert (σ1 !! r = None) as Hr.
  { apply not_elem_of_dom. apply is_fresh. }
  assert (∀ r' l, σ !! r' = Some l → σ1 !! r' = Some l) as Hσ1.
  { intros r' l Hl. unfold σ1.
    assert (s ≠ r') by congruence.
    by rewrite !lookup_insert_ne. }
  exists r, (<[r:=slice_to top_n (sorted key es reverse)]> σ1).
  split_and!.
  - unfold Store.bind, Store.sorted, Store.getslice, Store.bind, Store.items,
      Store.new_list, Store.list_sort, Store.ret.
    rewrite Hit. fold s. rewrite lookup_insert_eq. fold σ1.
    assert (σ1 !! s = Some (sorted key es reverse)) as ->
      by apply lookup_insert_eq.
    done.
  - assert (r ≠ it) by (apply Hσ1 in Hit; congruence).
    rewrite lookup_insert_ne by done. by apply Hσ1.
  - apply map_subseteq_spec. intros r' l Hl.
    apply Hσ1 in Hl as Hl1.
    assert (r ≠ r') by congruence.
    by rewrite lookup_insert_ne.
  - destruct (σ !! r) as [l|] eqn:Hl; [|done].
    apply Hσ1 in Hl. congruence.
  - apply lookup_insert_eq.
Qed.

(** C9: no top-N query changes the collection's list.  Run on any store in
    which [self.emperors] refers to a list [es], each of the five queries
    returns (it does not fail), and in the store it leaves [self.emperors]
    still refers to [es], the same records in the same order; every list
    object that existed is unchanged, and the list returned is a new object
    holding what the query computes from [es]. *)
Theorem top_n_queries_leave_emperors (top_n : Z) (self : Store.RomanEmpire)
    (σ : Store.store) (es : list RomanEmperor) (ds : gset string) :
  σ !! Store.emperors self = Some es →
  ∀ q f, (q, f) ∈ top_n_queries →
    ∃ r σ',
      q top_n self σ = Some (r, σ')
      ∧ σ' !! Store.emperors self = Some es
      ∧ σ ⊆ σ'
      ∧ σ !! r = None
      ∧ σ' !! r = Some (f top_n {| emperors := es; dynasties := ds |}).
Proof.
  intros Hes q f Hq.
  pose proof (λ key reverse,
                sorted_getslice_run key reverse top_n _ σ es Hes) as Hrun.
  unfold top_n_queries in Hq.
  repeat (apply elem_of_cons in Hq as [Hq|Hq]; [injection Hq as -> ->; apply Hrun|]).
  by apply elem_of_nil in Hq.
Qed.

(** ** The empty text as a label *)

Lemma append_nil_r (s : string) : s +:+ "" = s.
Proof. induction s as [|c s IH]; [done|]. by rewrite append_cons, IH. Qed.

Lemma info_first_lines (r : RomanEmperor) :
  ∃ rest,
    info r
    = [ "Name: " +:+ name r;
        "Lived: " +:+ pretty (birth r) +:+ " CE - " +:+ pretty (death r)
          +:+ " CE (Age: " +:+ pretty (age_at_death r) +:+ " years)";
        "Reign: " +:+ pretty (reign_start r) +:+ " CE - "
          +:+ pretty (reign_end r) +:+ " CE ("
          +:+ pretty (reign_duration r) +:+ " years)";
        if_truthy (dynasty r) (λ d, "Dynasty: " +:+ d) "Dynasty: None";
        if_truthy (zodiac r) (λ z, "Zodiac Sign: " +:+ z) "Zodiac Sign: Unknown" ]
      ++ rest.
Proof.
  unfold info.
  destruct (wives r), (notable_achievements r), (cause_of_death r) as [c|];
    unfold if_truthy at 1; try destruct (String.eqb c "");
    rewrite <- ?app_assoc; eexists; reflexivity.
Qed.

Lemma join_cons (sep x y : string) (l : list string) :
  join sep (x :: y :: l) = x +:+ sep +:+ join sep (y :: l).
Proof. reflexivity. Qed.

(** C10, as the code has it: a record whose dynasty is the empty text is
    treated as having no dynasty by the two operations that test the field
    for truth: [add_emperor] leaves [dynasties] as it was, so the empty text
    is not inserted, and the fourth line of the rendered text is
    "Dynasty: None".  [get_emperors_by_dynasty] compares labels for equality
    instead: asked for the empty text it returns the record, and asked for
    [None] it does not.  By the same rule of truth a record whose zodiac is
    the empty text, whatever its dynasty, has "Zodiac Sign: Unknown" as the
    fifth line of its rendered text. *)
Theorem empty_text_is_falsy (r : RomanEmperor) (self : RomanEmpire) :
  (dynasty r = Some "" →
   dynasties (add_emperor r self) = dynasties self
   ∧ ("" ∉ dynasties self → "" ∉ dynasties (add_emperor r self))
   ∧ info r !! 3%nat = Some "Dynasty: None"
   ∧ (∃ l0 l1 l2 after,
        __str__ r
        = l0 +:+ nl +:+ l1 +:+ nl +:+ l2 +:+ nl +:+ "Dynasty: None" +:+ nl +:+ after)
   ∧ r ∈ get_emperors_by_dynasty (Some "") (add_emperor r self)
   ∧ r ∉ get_emperors_by_dynasty None (add_emperor r self))
  ∧ (zodiac r = Some "" →
     info r !! 4%nat = Some "Zodiac Sign: Unknown"
     ∧ ∃ l0 l1 l2 l3 after,
         __str__ r
         = l0 +:+ nl +:+ l1 +:+ nl +:+ l2 +:+ nl +:+ l3 +:+ nl
           +:+ "Zodiac Sign: Unknown" +:+ after
         ∧ (after = "" ∨ ∃ more, after = nl +:+ more)).
Proof.
  destruct (info_first_lines r) as [rest Hinfo]. split.
  - intros Hd.
    assert (dynasties (add_emperor r self) = dynasties self) as Hsame.
    { simpl. by rewrite Hd. }
    rewrite Hd in Hinfo.
    split_and!.
    + done.
    + by rewrite Hsame.
    + by rewrite Hinfo.
    + unfold __str__. rewrite Hinfo. simpl app. rewrite !join_cons.
      simpl if_truthy. eauto.
    + unfold get_emperors_by_dynasty.
      rewrite list_elem_of_In, filter_In, <- list_elem_of_In. simpl. split.
      * apply elem_of_app. right. by left.
      * by apply bool_decide_eq_true.
    + unfold get_emperors_by_dynasty.
      rewrite list_elem_of_In, filter_In. intros [_ Hb].
      apply bool_decide_eq_true in Hb. congruence.
  - intros Hz. rewrite Hz in Hinfo. split.
    + by rewrite Hinfo.
    + unfold __str__. rewrite Hinfo. simpl app. simpl (if_truthy (Some "") _ _).
      destruct rest as [|x rest].
      * rewrite !join_cons. do 4 eexists. exists "".
        split; [|by left]. cbn [join]. by rewrite append_nil_r.
      * rewrite !join_cons. do 4 eexists. exists (nl +:+ join nl (x :: rest)).
        split; [done|]. right. eauto.
Qed.

(** C10 as stated fails for [get_emperors_by_dynasty]: it does not treat
    the empty text as no dynasty.  Of a record with the dynasty [""] and one
    with no dynasty, the query for [None] returns only the second and the
    query for [""] only the first. *)
Lemma by_dynasty_tells_empty_from_absent :
  dynasty empty_labels = Some ""
  ∧ dynasty absent_labels = None
  ∧ get_emperors_by_dynasty None
      (add_emperors [empty_labels; absent_labels] RomanEmpire__init__)
    = [absent_labels]
  ∧ get_emperors_by_dynasty (Some "")
      (add_emperors [empty_labels; absent_labels] RomanEmpire__init__)
    = [empty_labels].
Proof. split_and!; reflexivity. Qed.

(** ** The properties at concrete inputs *)

(** With only Augustus in the collection no reign contains the year 1000:
    the query returns the empty list. *)
Lemma get_emperor_by_year_spec_witness :
  get_emperor_by_year 1000 (add_emperor augustus RomanEmpire__init__) = [].
Proof.
  apply (get_emperor_by_year_spec 1000 (add_emperor augustus RomanEmpire__init__)).
  intros r Hr [_ Hend]. apply list_elem_of_singleton in Hr. subst r.
  vm_compute in Hend. by apply Hend.
Defined.

(** Augustus (27 BCE to 14 CE) overlaps the period from 1 to 100 and is
    returned; Constantine (306 to 337) starts after it and is left out. *)
Lemma get_emperors_by_period_spec_witness :
  augustus ∈ get_emperors_by_period 1 100
               (add_emperors [augustus; constantine] RomanEmpire__init__)
  ∧ constantine ∉ get_emperors_by_period 1 100
                    (add_emperors [augustus; constantine] RomanEmpire__init__).
Proof.
  pose proof (get_emperors_by_period_spec 1 100
                (add_emperors [augustus; constantine] RomanEmpire__init__))
    as (_ & Hout & Hin & _).
  split.
  - apply Hin. split; [by left|]. vm_compute. split; discriminate.
  - apply Hout; [right; by left|]. right. vm_compute. reflexivity.
Defined.

(** On the seeded collection of 21 records, [top_n = 1000] gives all 21,
    [top_n = 0] none and [top_n = -19] the first two. *)
Lemma top_n_boundaries_hold_witness :
  length (get_oldest_at_death 1000 create_roman_empire) = 21%nat
  ∧ get_oldest_at_death 0 create_roman_empire = []
  ∧ length (get_oldest_at_death (-19) create_roman_empire) = 2%nat.
Proof.
  pose proof top_n_boundaries_hold as (_ & _ & Hold & _).
  destruct (Hold 1000 create_roman_empire) as (_ & _ & _ & Hall & _ & _ & _).
  destruct (Hold 0 create_roman_empire) as (_ & _ & _ & _ & Hzero & _ & _).
  destruct (Hold (-19) create_roman_empire) as (_ & _ & _ & _ & _ & _ & Hneg).
  split_and!.
  - rewrite Hall by (vm_compute; discriminate). vm_compute. reflexivity.
  - by apply Hzero.
  - rewrite Hneg by reflexivity. vm_compute. reflexivity.
Defined.

(** After Augustus and Tiberius, both "Julio-Claudian", the set has one
    label; adding Caligula, of the same dynasty, leaves it at one. *)
Lemma dynasties_in_sync_witness :
  size (dynasties (add_emperors [augustus; tiberius] RomanEmpire__init__)) = 1%nat
  ∧ size (dynasties
            (add_emperor caligula
               (add_emperors [augustus; tiberius] RomanEmpire__init__))) = 1%nat.
Proof.
  pose proof (dynasties_in_sync [augustus; tiberius]) as (_ & _ & Hin & Hadd).
  destruct (Hadd caligula "Julio-Claudian") as [_ Hsize].
  - reflexivity.
  - apply Hin. split; [discriminate|]. exists augustus. split; [by left|reflexivity].
  - split; [|rewrite Hsize]; vm_compute; reflexivity.
Defined.


(** [get_longest_reigning(3)] on a store whose object 0 is the seed list. *)
Lemma top_n_queries_leave_emperors_witness :
  ∃ r σ',
    Store.get_longest_reigning 3 {| Store.emperors := 0 |} {[ 0%nat := seed ]}
    = Some (r, σ')
    ∧ σ' !! 0%nat = Some seed
    ∧ ({[ 0%nat := seed ]} : gmap nat (list RomanEmperor)) ⊆ σ'
    ∧ ({[ 0%nat := seed ]} : gmap nat (list RomanEmperor)) !! r = None
    ∧ σ' !! r
      = Some (get_longest_reigning 3 {| emperors := seed; dynasties := ∅ |}).
Proof.
  apply (top_n_queries_leave_emperors 3 {| Store.emperors := 0 |}
           {[ 0%nat := seed ]} seed ∅).
  - vm_compute. reflexivity.
  - left.
Defined.

(** The record [empty_labels], added to the empty collection; and the
    record [empty_zodiac], whose dynasty is "Flavian". *)
Lemma empty_text_is_falsy_witness :
  dynasty empty_labels = Some ""
  ∧ dynasties (add_emperor empty_labels RomanEmpire__init__) = ∅
  ∧ info empty_labels !! 3%nat = Some "Dynasty: None"
  ∧ zodiac empty_zodiac = Some ""
  ∧ dynasty empty_zodiac = Some "Flavian"
  ∧ info empty_zodiac !! 4%nat = Some "Zodiac Sign: Unknown".
Proof.
  pose proof (empty_text_is_falsy empty_labels RomanEmpire__init__) as [Hdyn _].
  pose proof (empty_text_is_falsy empty_zodiac RomanEmpire__init__) as [_ Hzod].
  destruct Hdyn as (Hsame & _ & Hline & _); [reflexivity|].
  destruct Hzod as [Hzline _]; [reflexivity|].
  split_and!; [done|exact Hsame|exact Hline|done|done|exact Hzline].
Defined.

(** ** Case and substrings *)

Lemma prefix_empty (t : string) : String.prefix "" t = true.
Proof. by destruct t. Qed.

Lemma str_in_empty (t : string) : str_in "" t = true.
Proof. destruct t; simpl; by rewrite ?prefix_empty. Qed.

Lemma str_in_refl (s : string) : str_in s s = true.
Proof. apply str_in_spec. exists "", "". by rewrite append_nil_r. Qed.

Lemma lower_idemp `{!UnicodeLower} (s : string) : lower (lower s) = lower s.
Proof. apply unicode_lower_idemp. Qed.

Lemma lower_empty `{!UnicodeLower} : lower "" = "".
Proof. reflexivity. Qed.

Lemma is_ascii_app (s t : string) :
  is_ascii (s +:+ t) = is_ascii s && is_ascii t.
Proof.
  induction s as [|c s IH]; [done|].
  rewrite append_cons. simpl. by rewrite IH, andb_assoc.
Qed.

Lemma case_aside_refl (s : string) : case_aside s s.
Proof. apply ascii_lower_case_aside. reflexivity. Qed.

(** ** The lookup by name *)

Lemma str_in_name_matches `{!UnicodeLower} (fragment : string) (r : RomanEmperor) :
  str_in (lower fragment) (lower (name r)) = true ↔ name_matches fragment r.
Proof. apply str_in_contains_case_aside. Qed.

Lemma get_emperor_by_name_cons `{!UnicodeLower} (fragment : string) (e : RomanEmperor)
    (l : list RomanEmperor) (ds ds' : gset string) :
  get_emperor_by_name fragment {| emperors := e :: l; dynasties := ds |}
  = if str_in (lower fragment) (lower (name e)) then Some e
    else get_emperor_by_name fragment {| emperors := l; dynasties := ds' |}.
Proof. reflexivity. Qed.

Lemma get_emperor_by_name_emperors `{!UnicodeLower} (fragment : string)
    (self : RomanEmpire)
    (ds : gset string) :
  get_emperor_by_name fragment self
  = get_emperor_by_name fragment {| emperors := emperors self; dynasties := ds |}.
Proof. reflexivity. Qed.

Lemma get_emperor_by_name_split `{!UnicodeLower} (fragment : string)
    (l : list RomanEmperor) :
  match get_emperor_by_name fragment {| emperors := l; dynasties := ∅ |} with
  | Some r =>
      ∃ before after,
        l = before ++ r :: after
        ∧ name_matches fragment r
        ∧ Forall (λ e, ¬ name_matches fragment e) before
  | None => Forall (λ e, ¬ name_matches fragment e) l
  end.
Proof.
  induction l as [|e l IH]; [by constructor|].
  rewrite (get_emperor_by_name_cons _ _ _ _ ∅).
  destruct (str_in (lower fragment) (lower (name e))) eqn:He.
  - exists [], l. split_and!; [done|by apply str_in_name_matches|constructor].
  - assert (¬ name_matches fragment e) as Hne.
    { rewrite <- str_in_name_matches. congruence. }
    destruct (get_emperor_by_name fragment {| emperors := l; dynasties := ∅ |}).
    + destruct IH as (before & after & -> & Hr & Hb).
      exists (e :: before), after. split_and!; [done|done|by constructor].
    + by constructor.
Qed.

(** X1: [get_emperor_by_name] returns the first record, in insertion
    order, whose name contains the fragment, case aside: when it returns [r],
    the collection splits into records that do not match, then [r], which
    matches, then the rest; and it returns [None] exactly when no record
    matches.  For an ASCII fragment and an ASCII name, to match is to have a
    part of the name equal to the fragment up to the case of its letters;
    with other characters it is containment after the lowering of the
    Unicode database. *)
Theorem get_emperor_by_name_first_match `{!UnicodeLower} (fragment : string)
    (self : RomanEmpire) :
  match get_emperor_by_name fragment self with
  | Some r =>
      ∃ before after,
        emperors self = before ++ r :: after
        ∧ name_matches fragment r
        ∧ Forall (λ e, ¬ name_matches fragment e) before
  | None => Forall (λ e, ¬ name_matches fragment e) (emperors self)
  end
  ∧ (∀ r, is_ascii fragment = true → is_ascii (name r) = true →
          (name_matches fragment r
           ↔ ∃ pre part post,
               name r = pre +:+ part +:+ post ∧ case_aside part fragment))
  ∧ (∀ r, is_ascii fragment && is_ascii (name r) = false →
          (name_matches fragment r
           ↔ ∃ pre post, lower (name r) = pre +:+ lower fragment +:+ post)).
Proof.
  split_and!.
  - rewrite (get_emperor_by_name_emperors _ _ ∅).
    apply get_emperor_by_name_split.
  - intros r Hf Hn. unfold name_matches, contains_case_aside. by rewrite Hf, Hn.
  - intros r Hfn. unfold name_matches, contains_case_aside. by rewrite Hfn.
Qed.

(** X2: the empty fragment is contained in every name, so
    [get_emperor_by_name ""] returns the first record of the collection, and
    [None] only when the collection is empty. *)
Theorem get_emperor_by_name_empty_fragment `{!UnicodeLower} (self : RomanEmpire) :
  get_emperor_by_name "" self = head (emperors self).
Proof.
  rewrite (get_emperor_by_name_emperors _ _ ∅).
  destruct (emperors self) as [|e l]; [done|].
  rewrite (get_emperor_by_name_cons _ _ _ _ ∅), lower_empty.
  by rewrite str_in_empty.
Qed.

(** X3: a record that was added is found by its own name: after
    [add_emperor r], the lookup by [name r] returns a record, never [None];
    it returns [r] itself when no record added before has a name that
    contains the name of [r], case aside. *)
Theorem add_then_get_by_name `{!UnicodeLower} (r : RomanEmperor)
    (self : RomanEmpire) :
  is_Some (get_emperor_by_name (name r) (add_emperor r self))
  ∧ (Forall (λ e, ¬ name_matches (name r) e) (emperors self) →
     get_emperor_by_name (name r) (add_emperor r self) = Some r).
Proof.
  rewrite (get_emperor_by_name_emperors _ _ ∅).
  change (emperors (add_emperor r self)) with (emperors self ++ [r]).
  induction (emperors self) as [|e l [IHs IHr]]; simpl app.
  - rewrite (get_emperor_by_name_cons _ _ _ _ ∅), str_in_refl. eauto.
  - rewrite (get_emperor_by_name_cons _ _ _ _ ∅).
    destruct (str_in (lower (name r)) (lower (name e))) eqn:He.
    + split; [eauto|]. intros Hall. apply Forall_cons in Hall as [Hne _].
      apply str_in_name_matches in He. done.
    + split; [done|]. intros Hall. apply Forall_cons in Hall as [_ Hall]. auto.
Qed.

(** ** Labels and the records that carry them *)

Lemma bool_filter_nonempty {A} (p : A → bool) (l : list A) :
  List.filter p l ≠ [] ↔ ∃ x, x ∈ l ∧ p x = true.
Proof.
  split.
  - destruct (List.filter p l) as [|x l'] eqn:Hf; [done|]. intros _.
    assert (In x (List.filter p l)) as Hx by (rewrite Hf; by left).
    apply filter_In in Hx as [Hx Hp]. exists x. by rewrite list_elem_of_In.
  - intros (x & Hx & Hp) Hnil.
    assert (In x (List.filter p l)) as Hin.
    { apply filter_In. by rewrite <- list_elem_of_In. }
    by rewrite Hnil in Hin.
Qed.

Lemma elem_of_truthy_labels (f : RomanEmperor → option string) (d : string)
    (l : list RomanEmperor) :
  d ∈ (list_to_set (omap (λ r, if_truthy (f r) Some None) l) : gset string)
  ↔ d ≠ "" ∧ ∃ r, r ∈ l ∧ f r = Some d.
Proof.
  rewrite elem_of_list_to_set, list_elem_of_omap. split.
  - intros (r & Hr & Hd). unfold if_truthy in Hd.
    destruct (f r) as [d'|] eqn:Hf; [|done].
    destruct (String.eqb d' "") eqn:He; [done|].
    injection Hd as ->. apply String.eqb_neq in He. eauto.
  - intros (Hne & r & Hr & Hd). exists r. split; [done|].
    unfold if_truthy. rewrite Hd.
    apply String.eqb_neq in Hne. by rewrite Hne.
Qed.

Lemma elem_of_by_dynasty (r : RomanEmperor) (d : option string) (self : RomanEmpire) :
  r ∈ get_emperors_by_dynasty d self ↔ r ∈ emperors self ∧ dynasty r = d.
Proof.
  unfold get_emperors_by_dynasty.
  by rewrite list_elem_of_In, filter_In, <- list_elem_of_In, bool_decide_eq_true.
Qed.

Lemma elem_of_by_zodiac (r : RomanEmperor) (z : option string) (self : RomanEmpire) :
  r ∈ get_emperors_by_zodiac z self ↔ r ∈ emperors self ∧ zodiac r = z.
Proof.
  unfold get_emperors_by_zodiac.
  by rewrite list_elem_of_In, filter_In, <- list_elem_of_In, bool_decide_eq_true.
Qed.

(** X4: in a collection built by [add_emperor] from the empty one, the set
    [dynasties] and the query by dynasty agree: a label is in the set exactly
    when it is not the empty text and [get_emperors_by_dynasty] returns at
    least one record for it.  Every record of the collection is returned by
    the query for its own label, [None] included. *)
Theorem dynasties_agree_with_query (rs : list RomanEmperor) :
  (∀ d, d ∈ dynasties (add_emperors rs RomanEmpire__init__)
        ↔ d ≠ ""
          ∧ get_emperors_by_dynasty (Some d) (add_emperors rs RomanEmpire__init__)
            ≠ [])
  ∧ (∀ r, r ∈ rs →
          r ∈ get_emperors_by_dynasty (dynasty r)
                (add_emperors rs RomanEmpire__init__)).
Proof.
  destruct (add_emperors_from_empty rs) as [He Hd]. split.
  - intros d. rewrite Hd. unfold truthy_dynasties, get_emperors_by_dynasty.
    rewrite elem_of_truthy_labels, bool_filter_nonempty, He.
    by setoid_rewrite bool_decide_eq_true.
  - intros r Hr. apply elem_of_by_dynasty. by rewrite He.
Qed.

(** X5: the zodiac listing of [main] prints no empty group and loses no
    record: a sign is in [zodiac_signs] exactly when it is not the empty text
    and [get_emperors_by_zodiac] returns at least one record for it; every
    record with a truthy zodiac is returned for its own sign, and no record
    is returned for two signs. *)
Theorem zodiac_groups (self : RomanEmpire) :
  (∀ sign, sign ∈ zodiac_signs self
           ↔ sign ≠ "" ∧ get_emperors_by_zodiac (Some sign) self ≠ [])
  ∧ (∀ r sign, r ∈ emperors self → zodiac r = Some sign → sign ≠ "" →
               sign ∈ zodiac_signs self
               ∧ r ∈ get_emperors_by_zodiac (Some sign) self)
  ∧ (∀ r sign sign',
       r ∈ get_emperors_by_zodiac (Some sign) self →
       r ∈ get_emperors_by_zodiac (Some sign') self → sign = sign').
Proof.
  split_and!.
  - intros sign. unfold zodiac_signs, get_emperors_by_zodiac.
    rewrite elem_of_truthy_labels, bool_filter_nonempty.
    by setoid_rewrite bool_decide_eq_true.
  - intros r sign Hr Hz Hne. split.
    + apply elem_of_truthy_labels. eauto.
    + by apply elem_of_by_zodiac.
  - intros r sign sign' [_ H1]%elem_of_by_zodiac [_ H2]%elem_of_by_zodiac.
    congruence.
Qed.

(** ** Adding to a collection that is not empty *)

Lemma truthy_dynasties_app (l1 l2 : list RomanEmperor) :
  truthy_dynasties (l1 ++ l2) = truthy_dynasties l1 ∪ truthy_dynasties l2.
Proof. unfold truthy_dynasties. by rewrite omap_app, list_to_set_app_L. Qed.

Lemma add_emperors_from (l : list RomanEmperor) (self : RomanEmpire) :
  emperors (add_emperors l self) = emperors self ++ l
  ∧ dynasties (add_emperors l self) = dynasties self ∪ truthy_dynasties l.
Proof.
  induction l as [|r l [IHe IHd]] using rev_ind.
  - simpl. rewrite app_nil_r. split; [done|].
    unfold truthy_dynasties. simpl. by rewrite (right_id_L ∅ (∪)).
  - rewrite add_emperors_snoc, truthy_dynasties_snoc. simpl.
    rewrite IHe, IHd, app_assoc. split; [done|].
    unfold if_truthy. destruct (dynasty r) as [d|]; [|done].
    destruct (String.eqb d ""); [done|]. by rewrite (assoc_L (∪)).
Qed.

(** X6: adding records to any collection extends it and removes nothing:
    [emperors] is the old list followed by the new records in order,
    [dynasties] is the old set together with the truthy labels of the new
    records, so the old set is contained in the new one; and if [dynasties]
    was the set of truthy labels of [emperors] before, it is so after. *)
Theorem add_emperors_extends (l : list RomanEmperor) (self : RomanEmpire) :
  emperors (add_emperors l self) = emperors self ++ l
  ∧ dynasties (add_emperors l self) = dynasties self ∪ truthy_dynasties l
  ∧ dynasties self ⊆ dynasties (add_emperors l self)
  ∧ (dynasties self = truthy_dynasties (emperors self) →
     dynasties (add_emperors l self)
     = truthy_dynasties (emperors (add_emperors l self))).
Proof.
  destruct (add_emperors_from l self) as [He Hd]. split_and!; [done|done|..].
  - rewrite Hd. apply union_subseteq_l.
  - intros Hinv. by rewrite He, Hd, truthy_dynasties_app, Hinv.
Qed.

(** ** Queries after an addition, and the period of one year *)

Lemma bool_filter_snoc {A} (p : A → bool) (l : list A) (x : A) :
  List.filter p (l ++ [x]) = List.filter p l ++ (if p x then [x] else []).
Proof. by rewrite List.filter_app. Qed.

Lemma get_emperor_by_year_bool (year : Z) (self : RomanEmpire) :
  get_emperor_by_year year self
  = List.filter (λ e, (reign_start e <=? year) && (year <=? reign_end e))
      (emperors self).
Proof.
  unfold get_emperor_by_year.
  by rewrite (fold_left_append_filter
                (λ e, (reign_start e <=? year) && (year <=? reign_end e))).
Qed.

(** X7: an addition changes the answer of a filtering query only at its
    end.  After [add_emperor r], each of the queries by year, by period, by
    dynasty, by zodiac and by wife returns what it returned before, followed
    by [r] if [r] passes the test of the query and by nothing otherwise. *)
Theorem queries_after_add `{!UnicodeLower} (r : RomanEmperor) (self : RomanEmpire) :
  (∀ year,
     get_emperor_by_year year (add_emperor r self)
     = get_emperor_by_year year self
       ++ (if decide (reign_start r ≤ year ≤ reign_end r) then [r] else []))
  ∧ (∀ start_year end_year,
       get_emperors_by_period start_year end_year (add_emperor r self)
       = get_emperors_by_period start_year end_year self
         ++ (if decide (start_year ≤ reign_end r ∧ reign_start r ≤ end_year)
             then [r] else []))
  ∧ (∀ d,
       get_emperors_by_dynasty d (add_emperor r self)
       = get_emperors_by_dynasty d self
         ++ (if decide (dynasty r = d) then [r] else []))
  ∧ (∀ z,
       get_emperors_by_zodiac z (add_emperor r self)
       = get_emperors_by_zodiac z self
         ++ (if decide (zodiac r = z) then [r] else []))
  ∧ (∀ fragment,
       (wife_matches fragment r →
        get_emperors_by_wife fragment (add_emperor r self)
        = get_emperors_by_wife fragment self ++ [r])
       ∧ (¬ wife_matches fragment r →
          get_emperors_by_wife fragment (add_emperor r self)
          = get_emperors_by_wife fragment self)).
Proof.
  split_and!.
  - intros year. rewrite !get_emperor_by_year_bool. simpl emperors.
    rewrite bool_filter_snoc. f_equal.
    destruct (reign_start r <=? year) eqn:H1, (year <=? reign_end r) eqn:H2;
      simpl; case_decide; try done;
      rewrite ?Z.leb_le, ?Z.leb_gt in H1, H2; lia.
  - intros start_year end_year. unfold get_emperors_by_period. simpl emperors.
    rewrite bool_filter_snoc. f_equal.
    destruct (reign_end r <? start_year) eqn:H1, (reign_start r >? end_year) eqn:H2;
      simpl; case_decide; try done;
      rewrite ?Z.ltb_lt, ?Z.ltb_ge, ?Z.gtb_ltb in H1, H2;
      rewrite ?Z.ltb_lt, ?Z.ltb_ge in H2; lia.
  - intros d. unfold get_emperors_by_dynasty. simpl emperors.
    rewrite bool_filter_snoc. f_equal. unfold bool_decide.
    by destruct (decide_rel eq (dynasty r) d), (decide (dynasty r = d)).
  - intros z. unfold get_emperors_by_zodiac. simpl emperors.
    rewrite bool_filter_snoc. f_equal. unfold bool_decide.
    by destruct (decide_rel eq (zodiac r) z), (decide (zodiac r = z)).
  - intros fragment. rewrite !get_emperors_by_wife_filter. simpl emperors.
    rewrite bool_filter_snoc.
    destruct (existsb _ (wives r)) eqn:Hb.
    + apply existsb_wife_matches in Hb. by split.
    + split; [|by rewrite app_nil_r].
      intros Hm. apply existsb_wife_matches in Hm. congruence.
Qed.

(** X8: the query by year is the query by period for the period of that
    one year. *)
Theorem year_is_period_of_one_year (year : Z) (self : RomanEmpire) :
  get_emperors_by_period year year self = get_emperor_by_year year self.
Proof.
  rewrite get_emperor_by_year_bool. unfold get_emperors_by_period.
  induction (emperors self) as [|e l IH]; [done|]. simpl. rewrite IH.
  assert (negb ((reign_end e <? year) || (reign_start e >? year))
          = (reign_start e <=? year) && (year <=? reign_end e)) as ->; [|done].
  rewrite Z.gtb_ltb.
  destruct (reign_end e <? year) eqn:H1, (year <? reign_start e) eqn:H2,
    (reign_start e <=? year) eqn:H3, (year <=? reign_end e) eqn:H4; try done;
    rewrite ?Z.ltb_lt, ?Z.ltb_ge, ?Z.leb_le, ?Z.leb_gt in H1, H2, H3, H4; lia.
Qed.

Lemma bool_filter_sublist_impl {A} (p q : A → bool) (l : list A) :
  (∀ x, p x = true → q x = true) →
  sublist (List.filter p l) (List.filter q l).
Proof.
  intros Hpq. induction l as [|x l IH]; simpl; [constructor|].
  destruct (p x) eqn:Hp.
  - rewrite (Hpq x Hp). by constructor.
  - destruct (q x); [by constructor|done].
Qed.

(** X9: a wider period returns everything the narrower one returns, in
    the same order: if the period [start_year .. end_year] lies inside
    [start' .. end'], the result for the first is a subsequence of the result
    for the second. *)
Theorem period_widening (start_year end_year start' end' : Z) (self : RomanEmpire) :
  start' ≤ start_year → end_year ≤ end' →
  sublist (get_emperors_by_period start_year end_year self)
          (get_emperors_by_period start' end' self).
Proof.
  intros Hs He. unfold get_emperors_by_period.
  apply bool_filter_sublist_impl. intros e.
  rewrite !negb_true_iff, !orb_false_iff, !Z.ltb_ge, !Z.gtb_ltb, !Z.ltb_ge. lia.
Qed.

Lemma period_widening_witness :
  sublist (get_emperors_by_period 50 60 create_roman_empire)
          (get_emperors_by_period 1 100 create_roman_empire).
Proof. apply period_widening; lia. Defined.

(** ** What a top-N query returns *)

Lemma sorted_in_order (key : RomanEmperor → Z) (reverse : bool)
    (l : list RomanEmperor) :
  StronglySorted (in_order key reverse) (sorted key l reverse).
Proof. destruct reverse; [apply sorted_descending|apply sorted_ascending]. Qed.

Lemma slice_to_take {A} (n : Z) (l : list A) : ∃ k, slice_to n l = take k l.
Proof. unfold slice_to. eauto. Qed.

Lemma sorted_slice_dominates (key : RomanEmperor → Z) (reverse : bool) (n : Z)
    (l : list RomanEmperor) :
  ∃ rest,
    slice_to n (sorted key l reverse) ++ rest ≡ₚ l
    ∧ StronglySorted (in_order key reverse) (slice_to n (sorted key l reverse))
    ∧ ∀ a b, a ∈ slice_to n (sorted key l reverse) → b ∈ rest →
             in_order key reverse a b.
Proof.
  destruct (slice_to_take n (sorted key l reverse)) as [k ->].
  exists (drop k (sorted key l reverse)).
  pose proof (sorted_in_order key reverse l) as Hs.
  rewrite <- (take_drop k (sorted key l reverse)) in Hs.
  apply StronglySorted_app in Hs as (Hcross & Htake & _).
  split_and!; [|done|done].
  by rewrite take_drop, sorted_Permutation.
Qed.

(** X10: the records a top-N query returns are the best by its key.  For
    every [top_n], each of the five queries returns records in the order of
    its key, and the records of the collection it leaves out are all at or
    beyond the returned ones in that order: none of them reigned longer (was
    older, and so on) than a record that was returned. *)
Theorem top_n_dominates (top_n : Z) (self : RomanEmpire) :
  Forall
    (λ '(query, key, reverse),
       ∃ rest,
         query top_n self ++ rest ≡ₚ emperors self
         ∧ StronglySorted (in_order key reverse) (query top_n self)
         ∧ ∀ a b, a ∈ query top_n self → b ∈ rest → in_order key reverse a b)
    top_n_specs.
Proof.
  unfold top_n_specs.
  repeat apply Forall_cons_2; [apply sorted_slice_dominates..|constructor].
Qed.

Lemma slice_to_prefix {A} (n m : Z) (l : list A) :
  0 ≤ n ≤ m →
  slice_to n l `prefix_of` slice_to m l
  ∧ length (slice_to n l) = (Z.to_nat n `min` length l)%nat.
Proof.
  intros Hnm. rewrite !slice_to_nonneg by lia. split.
  - exists (take (Z.to_nat m - Z.to_nat n) (drop (Z.to_nat n) l)).
    rewrite take_take_drop. f_equal. lia.
  - apply length_take.
Qed.

(** X11: asking for more records keeps the ones already given.  For
    [0 <= n <= m] the result of each top-N query for [n] is the beginning of
    its result for [m], and it has [n] records, or as many as the collection
    holds if that is fewer. *)
Theorem top_n_grows (n m : Z) (self : RomanEmpire) :
  0 ≤ n ≤ m →
  Forall
    (λ '(query, _, _),
       query n self `prefix_of` query m self
       ∧ length (query n self) = (Z.to_nat n `min` length (emperors self))%nat)
    top_n_specs.
Proof.
  intros Hnm.
  assert (∀ key reverse,
            slice_to n (sorted key (emperors self) reverse)
              `prefix_of` slice_to m (sorted key (emperors self) reverse)
            ∧ length (slice_to n (sorted key (emperors self) reverse))
              = (Z.to_nat n `min` length (emperors self))%nat) as Hgen.
  { intros key reverse.
    destruct (slice_to_prefix n m (sorted key (emperors self) reverse) Hnm)
      as [Hp Hl].
    split; [done|]. by rewrite Hl, sorted_length. }
  unfold top_n_specs. repeat apply Forall_cons_2; [apply Hgen..|constructor].
Qed.

Lemma top_n_grows_witness :
  get_longest_reigning 1 create_roman_empire
    `prefix_of` get_longest_reigning 3 create_roman_empire
  ∧ length (get_longest_reigning 1 create_roman_empire) = 1%nat.
Proof.
  assert (0 ≤ 1 ≤ 3) as Hnm by lia.
  pose proof (top_n_grows 1 3 create_roman_empire Hnm) as Hall.
  apply Forall_cons in Hall as [[Hp Hl] _].
  split; [exact Hp|]. rewrite Hl. vm_compute. reflexivity.
Defined.

Lemma filter_head_split {A} (P : A → Prop) `{!∀ x, Decision (P x)}
    (l l' : list A) (r : A) :
  filter P l = r :: l' →
  ∃ before after, l = before ++ r :: after ∧ Forall (λ x, ¬ P x) before.
Proof.
  induction l as [|x l IH]; [done|].
  rewrite filter_cons. case_decide as Hx.
  - intros [= -> _]. exists [], l. split; [done|constructor].
  - intros (before & after & -> & Hb)%IH.
    exists (x :: before), after. split; [done|by constructor].
Qed.

Lemma sorted_head_first_extreme (key : RomanEmperor → Z) (reverse : bool)
    (l : list RomanEmperor) :
  l ≠ [] →
  ∃ r before after,
    slice_to 1 (sorted key l reverse) = [r]
    ∧ l = before ++ r :: after
    ∧ (∀ e, e ∈ l → in_order key reverse r e)
    ∧ Forall (λ e, key e ≠ key r) before.
Proof.
  intros Hne.
  pose proof (sorted_in_order key reverse l) as Hs.
  pose proof (sorted_Permutation key l reverse) as Hp.
  pose proof (sorted_stable key) as Hst.
  destruct (sorted key l reverse) as [|r tl] eqn:Hsorted.
  { apply Permutation_nil_l in Hp. done. }
  specialize (Hst (key r) l reverse). rewrite Hsorted in Hst.
  rewrite filter_cons_True in Hst by done.
  symmetry in Hst. apply filter_head_split in Hst as (before & after & Hl & Hb).
  exists r, before, after. split_and!; [|done| |done].
  - rewrite slice_to_nonneg by lia. reflexivity.
  - intros e He. rewrite <- Hp in He.
    apply StronglySorted_cons in Hs as [Htl _].
    apply elem_of_cons in He as [->|He].
    + unfold in_order. destruct reverse; lia.
    + by eapply Forall_forall in Htl.
Qed.

(** X12: asked for one record, a top-N query returns the first best one.
    On a collection that is not empty, each of the five queries with
    [top_n = 1] returns a single record [r] of the collection; no record of
    the collection stands before [r] in the order of the key, and of the
    records with the same key as [r] it is the one added first. *)
Theorem top_one_is_first_extreme (self : RomanEmpire) :
  emperors self ≠ [] →
  Forall
    (λ '(query, key, reverse),
       ∃ r before after,
         query 1 self = [r]
         ∧ emperors self = before ++ r :: after
         ∧ (∀ e, e ∈ emperors self → in_order key reverse r e)
         ∧ Forall (λ e, key e ≠ key r) before)
    top_n_specs.
Proof.
  intros Hne. unfold top_n_specs.
  repeat apply Forall_cons_2;
    [by apply sorted_head_first_extreme..|constructor].
Qed.

Lemma top_one_is_first_extreme_witness :
  ∃ r before after,
    get_shortest_reigning 1 create_roman_empire = [r]
    ∧ emperors create_roman_empire = before ++ r :: after
    ∧ (∀ e, e ∈ emperors create_roman_empire →
            in_order reign_duration false r e)
    ∧ Forall (λ e, reign_duration e ≠ reign_duration r) before.
Proof.
  assert (emperors create_roman_empire ≠ []) as Hne by (vm_compute; discriminate).
  pose proof (top_one_is_first_extreme create_roman_empire Hne) as Hall.
  apply Forall_cons in Hall as [_ Hall].
  apply Forall_cons in Hall as [Hshort _].
  exact Hshort.
Defined.

(** ** The sections of the rendered text *)

Lemma if_truthy_append (o : option string) (f : string → string)
    (lines : list string) :
  if_truthy o (λ c, lines ++ [f c]) lines
  = lines ++ if_truthy o (λ c, [f c]) [].
Proof.
  unfold if_truthy. destruct o as [c|]; [|by rewrite app_nil_r].
  destruct (String.eqb c ""); [by rewrite app_nil_r|done].
Qed.

Lemma info_sections_split (r : RomanEmperor) :
  info r
  = [ "Name: " +:+ name r;
      "Lived: " +:+ pretty (birth r) +:+ " CE - " +:+ pretty (death r)
        +:+ " CE (Age: " +:+ pretty (age_at_death r) +:+ " years)";
      "Reign: " +:+ pretty (reign_start r) +:+ " CE - "
        +:+ pretty (reign_end r) +:+ " CE ("
        +:+ pretty (reign_duration r) +:+ " years)";
      if_truthy (dynasty r) (λ d, "Dynasty: " +:+ d) "Dynasty: None";
      if_truthy (zodiac r) (λ z, "Zodiac Sign: " +:+ z) "Zodiac Sign: Unknown" ]
    ++ section_lines "Wives/Consorts:" (wives r)
    ++ section_lines "Notable Achievements:" (notable_achievements r)
    ++ if_truthy (cause_of_death r) (λ c, ["Cause of Death: " +:+ c]) [].
Proof.
  unfold info, section_lines.
  rewrite (if_truthy_append _ (λ c, "Cause of Death: " +:+ c)).
  destruct (wives r), (notable_achievements r);
    rewrite <- ?app_assoc; reflexivity.
Qed.

Lemma elem_of_section_lines (x heading : string) (items : list string) :
  x ∈ section_lines heading items
  ↔ items ≠ [] ∧ (x = heading ∨ ∃ item, item ∈ items ∧ x = "  - " +:+ item).
Proof.
  unfold section_lines. destruct items as [|i items].
  - split; [by intros ?%elem_of_nil|by intros [? _]].
  - rewrite elem_of_cons.
    change (map ?f ?l) with (f <$> l). rewrite list_elem_of_fmap.
    split.
    + intros [->|(y & -> & Hy)]; (split; [done|]); eauto.
    + intros [_ [->|(y & Hy & ->)]]; eauto.
Qed.

Lemma section_lines_length (heading : string) (items : list string) :
  length (section_lines heading items)
  = if decide (items = []) then 0%nat else S (length items).
Proof.
  unfold section_lines. destruct items; [done|].
  rewrite decide_False by done. simpl. by rewrite length_map.
Qed.

(** A line that starts like none of the two headings. *)
Ltac other_line H := repeat rewrite append_cons in H; discriminate H.

(** The list [info] has the five fixed lines and the optional sections;
    each heading is in it exactly when its section is not empty. *)
Lemma info_sections (r : RomanEmperor) :
  length (info r)
  = (5 + (if decide (wives r = []) then 0 else S (length (wives r)))
     + (if decide (notable_achievements r = []) then 0
        else S (length (notable_achievements r)))
     + (if truthy (cause_of_death r) then 1 else 0))%nat
  ∧ ("Wives/Consorts:" ∈ info r ↔ wives r ≠ [])
  ∧ ("Notable Achievements:" ∈ info r ↔ notable_achievements r ≠ []).
Proof.
  rewrite info_sections_split. split_and!.
  - rewrite !length_app, !section_lines_length. simpl length.
    assert (length (if_truthy (cause_of_death r)
                      (λ c, ["Cause of Death: " +:+ c]) [])
            = if truthy (cause_of_death r) then 1%nat else 0%nat) as ->.
    { unfold truthy, if_truthy. destruct (cause_of_death r) as [c|]; [|done].
      by destruct (String.eqb c ""). }
    lia.
  - rewrite !elem_of_app, !elem_of_section_lines. split.
    + intros [Hfixed|[[Hw _]|[[_ Ha]|Hc]]]; [exfalso|done|exfalso|exfalso].
      * unfold if_truthy in Hfixed.
        repeat (apply elem_of_cons in Hfixed as [Hfixed|Hfixed];
                [repeat case_match; other_line Hfixed|]).
        by apply elem_of_nil in Hfixed.
      * destruct Ha as [Ha|(item & _ & Ha)]; other_line Ha.
      * unfold if_truthy in Hc. repeat case_match;
          try (by apply elem_of_nil in Hc).
        apply list_elem_of_singleton in Hc. other_line Hc.
    + intros Hw. right. left. split; [done|by left].
  - rewrite !elem_of_app, !elem_of_section_lines. split.
    + intros [Hfixed|[[_ Hw]|[[Ha _]|Hc]]]; [exfalso|exfalso|done|exfalso].
      * unfold if_truthy in Hfixed.
        repeat (apply elem_of_cons in Hfixed as [Hfixed|Hfixed];
                [repeat case_match; other_line Hfixed|]).
        by apply elem_of_nil in Hfixed.
      * destruct Hw as [Hw|(item & _ & Hw)]; other_line Hw.
      * unfold if_truthy in Hc. repeat case_match;
          try (by apply elem_of_nil in Hc).
        apply list_elem_of_singleton in Hc. other_line Hc.
    + intros Ha. right. right. left. split; [done|by left].
Qed.

(** *** The lines of the rendered text *)

Lemma single_line_app (s t : string) :
  single_line (s +:+ t) = single_line s && single_line t.
Proof.
  induction s as [|c s IH]; [done|].
  rewrite append_cons. simpl. by rewrite IH, andb_assoc.
Qed.

Lemma lines_of_single_line (s : string) :
  single_line s = true → lines_of s = [s].
Proof.
  induction s as [|c s IH]; [done|]. simpl.
  intros [Hc Hs]%andb_true_iff. apply negb_true_iff in Hc.
  by rewrite Hc, (IH Hs).
Qed.

Lemma lines_of_first_line (s t : string) :
  single_line s = true → lines_of (s +:+ nl +:+ t) = s :: lines_of t.
Proof.
  induction s as [|c s IH]; [done|].
  rewrite append_cons. simpl.
  intros [Hc Hs]%andb_true_iff. apply negb_true_iff in Hc.
  by rewrite Hc, (IH Hs).
Qed.

(** Splitting what was joined gives back the lines, when none of them has
    a line feed. *)
Lemma lines_of_join (l : list string) :
  l ≠ [] → Forall (λ s, single_line s = true) l → lines_of (join nl l) = l.
Proof.
  induction l as [|s l IH]; [done|]. intros _ [Hs Hl]%Forall_cons.
  destruct l as [|y l].
  - by apply lines_of_single_line.
  - rewrite join_cons, (lines_of_first_line _ _ Hs). f_equal. by apply IH.
Qed.

Lemma single_line_pretty_N_go (x : N) (s : string) :
  single_line s = true → single_line (pretty_N_go x s) = true.
Proof.
  revert s. induction (N.lt_wf_0 x) as [x _ IH]; intros s Hs.
  destruct (decide (x = 0%N)) as [->|Hx]; [by rewrite pretty_N_go_0|].
  rewrite pretty_N_go_step by lia. apply IH.
  - apply N.div_lt; lia.
  - simpl. rewrite Hs, andb_true_r. apply negb_true_iff.
    unfold pretty_N_char. by repeat case_match.
Qed.

Lemma single_line_pretty_Z (z : Z) : single_line (pretty z) = true.
Proof.
  assert (∀ p : positive, single_line (pretty p) = true) as Hpos.
  { intros p. unfold pretty, pretty_positive, pretty, pretty_N.
    case_decide; [done|]. by apply single_line_pretty_N_go. }
  destruct z as [|p|p]; [done|apply Hpos|].
  unfold pretty, pretty_Z. rewrite single_line_app. by rewrite Hpos.
Qed.

Lemma single_line_section (heading : string) (items : list string) :
  single_line heading = true →
  Forall (λ item, single_line item = true) items →
  Forall (λ s, single_line s = true) (section_lines heading items).
Proof.
  intros Hh Hitems. unfold section_lines. destruct items as [|i items]; [done|].
  constructor; [done|].
  change (map ?f ?l) with (f <$> l). apply Forall_fmap.
  eapply Forall_impl; [exact Hitems|]. simpl. intros item Hitem.
  by rewrite single_line_app, Hitem.
Qed.

Lemma single_line_info (r : RomanEmperor) :
  single_line_fields r → Forall (λ s, single_line s = true) (info r).
Proof.
  intros (Hname & Hdyn & Hzod & Hcause & Hwives & Hach).
  rewrite info_sections_split. repeat apply Forall_app_2.
  - repeat constructor.
    + by rewrite single_line_app, Hname.
    + by rewrite !single_line_app, !single_line_pretty_Z.
    + by rewrite !single_line_app, !single_line_pretty_Z.
    + unfold if_truthy. destruct (dynasty r) as [d|]; [|done].
      destruct (String.eqb d ""); [done|].
      by rewrite single_line_app, (Hdyn d).
    + unfold if_truthy. destruct (zodiac r) as [z|]; [|done].
      destruct (String.eqb z ""); [done|].
      by rewrite single_line_app, (Hzod z).
  - by apply single_line_section.
  - by apply single_line_section.
  - unfold if_truthy. destruct (cause_of_death r) as [c|]; [|done].
    destruct (String.eqb c ""); [done|].
    repeat constructor. by rewrite single_line_app, (Hcause c).
Qed.

(** X13: when no text of the record has a line feed, the rendered text
    read line by line is: the five fixed lines for the name, the life, the
    reign, the dynasty and the zodiac; then, only if there are wives, the
    heading "Wives/Consorts:" and a line for each; then, only if there are
    achievements, the heading "Notable Achievements:" and a line for each;
    then, only if the cause of death is truthy, its line; in that order and
    nothing else.  So each heading is a line of the text exactly when its
    list is not empty. *)
Theorem rendered_lines (r : RomanEmperor) :
  single_line_fields r →
  lines_of (__str__ r)
  = [ "Name: " +:+ name r;
      "Lived: " +:+ pretty (birth r) +:+ " CE - " +:+ pretty (death r)
        +:+ " CE (Age: " +:+ pretty (age_at_death r) +:+ " years)";
      "Reign: " +:+ pretty (reign_start r) +:+ " CE - "
        +:+ pretty (reign_end r) +:+ " CE ("
        +:+ pretty (reign_duration r) +:+ " years)";
      if_truthy (dynasty r) (λ d, "Dynasty: " +:+ d) "Dynasty: None";
      if_truthy (zodiac r) (λ z, "Zodiac Sign: " +:+ z) "Zodiac Sign: Unknown" ]
    ++ section_lines "Wives/Consorts:" (wives r)
    ++ section_lines "Notable Achievements:" (notable_achievements r)
    ++ if_truthy (cause_of_death r) (λ c, ["Cause of Death: " +:+ c]) []
  ∧ ("Wives/Consorts:" ∈ lines_of (__str__ r) ↔ wives r ≠ [])
  ∧ ("Notable Achievements:" ∈ lines_of (__str__ r)
     ↔ notable_achievements r ≠ []).
Proof.
  intros Hfields.
  assert (lines_of (__str__ r) = info r) as Hlines.
  { unfold __str__. apply lines_of_join; [|by apply single_line_info].
    rewrite info_sections_split. discriminate. }
  rewrite Hlines.
  destruct (info_sections r) as (_ & Hw & Ha).
  split_and!; [apply info_sections_split|done|done].
Qed.

Lemma rendered_lines_witness :
  length (lines_of (__str__ augustus)) = 15%nat
  ∧ "Wives/Consorts:" ∈ lines_of (__str__ augustus).
Proof.
  assert (single_line_fields augustus) as Hfields.
  { split_and!; try reflexivity.
    - by intros d [= <-].
    - by intros z [= <-].
    - by intros c [= <-].
    - repeat constructor.
    - repeat constructor. }
  destruct (rendered_lines augustus Hfields) as (Heq & Hw & _).
  split.
  - rewrite Heq. vm_compute. reflexivity.
  - apply Hw. discriminate.
Defined.

(** ** Fragments: the empty one, the literal one, and case *)

(** X14: the query by wife never returns a record without wife entries,
    whatever the fragment; and for the empty fragment, which every entry
    contains, it returns exactly the records that have at least one entry. *)
Theorem wife_query_needs_a_wife `{!UnicodeLower} (fragment : string)
    (self : RomanEmpire) :
  (∀ r, r ∈ get_emperors_by_wife fragment self → wives r ≠ [])
  ∧ get_emperors_by_wife "" self = filter (λ r, wives r ≠ []) (emperors self).
Proof.
  split.
  - intros r. rewrite get_emperors_by_wife_filter, list_elem_of_In, filter_In.
    intros [_ Hb] Hnil. by rewrite Hnil in Hb.
  - rewrite get_emperors_by_wife_filter. apply bool_filter_prop. intros r.
    destruct (wives r) as [|w ws]; [done|]. simpl.
    by rewrite lower_empty, str_in_empty.
Qed.

Lemma literal_part_matches `{!UnicodeLower} (pre fragment post : string) :
  is_ascii (pre +:+ fragment +:+ post) = true →
  contains_case_aside fragment (pre +:+ fragment +:+ post).
Proof.
  intros Ha. unfold contains_case_aside. rewrite Ha.
  rewrite !is_ascii_app, !andb_true_iff in Ha. destruct Ha as (_ & -> & _).
  exists pre, fragment, post. split; [done|apply case_aside_refl].
Qed.

(** X15: on ASCII text a literal match is found.  If an ASCII wife entry
    of a record of the collection contains the fragment as it is written,
    the query by wife returns the record; and if the ASCII name of a record
    of the collection contains the fragment as it is written, the lookup by
    name returns a record.  (Outside ASCII the lowering of a part need not be
    a part of the lowering, and a literal match can be missed.) *)
Theorem literal_match_is_found `{!UnicodeLower} (fragment : string)
    (r : RomanEmperor) (self : RomanEmpire) :
  r ∈ emperors self →
  ((∃ wife pre post,
      wife ∈ wives r ∧ is_ascii wife = true ∧ wife = pre +:+ fragment +:+ post) →
   r ∈ get_emperors_by_wife fragment self)
  ∧ (is_ascii (name r) = true →
     (∃ pre post, name r = pre +:+ fragment +:+ post) →
     is_Some (get_emperor_by_name fragment self)).
Proof.
  intros Hr. split.
  - intros (wife & pre & post & Hw & Ha & ->).
    rewrite get_emperors_by_wife_filter, list_elem_of_In, filter_In,
      <- list_elem_of_In.
    split; [done|]. apply existsb_wife_matches.
    exists (pre +:+ fragment +:+ post). split; [done|].
    by apply literal_part_matches.
  - intros Ha (pre & post & Hn).
    pose proof (get_emperor_by_name_split fragment (emperors self)) as Hsplit.
    rewrite (get_emperor_by_name_emperors _ _ ∅).
    destruct (get_emperor_by_name fragment _); [eauto|].
    exfalso. eapply Forall_forall in Hsplit; [|exact Hr].
    apply Hsplit. unfold name_matches. rewrite Hn.
    apply literal_part_matches. by rewrite <- Hn.
Qed.

Lemma literal_match_is_found_witness :
  two_matching_wives
    ∈ @get_emperors_by_wife ascii_only "Sabina"
        (add_emperor two_matching_wives RomanEmpire__init__).
Proof.
  apply (@literal_match_is_found ascii_only "Sabina" two_matching_wives).
  - simpl. by left.
  - exists "Poppaea Sabina", "Poppaea ", "".
    split_and!; [by left|reflexivity|reflexivity].
Defined.

(** X16: the case of the fragment does not matter.  Two fragments that
    are equal once lowered give the same result in the lookup by name and in
    the query by wife; in particular a fragment and its lowered form do. *)
Theorem fragment_case_is_ignored `{!UnicodeLower} (fragment fragment' : string)
    (self : RomanEmpire) :
  lower fragment = lower fragment' →
  get_emperor_by_name fragment self = get_emperor_by_name fragment' self
  ∧ get_emperors_by_wife fragment self = get_emperors_by_wife fragment' self
  ∧ get_emperors_by_wife (lower fragment) self = get_emperors_by_wife fragment self.
Proof.
  intros Heq. split_and!.
  - unfold get_emperor_by_name. by rewrite Heq.
  - rewrite !get_emperors_by_wife_filter. by rewrite Heq.
  - rewrite !get_emperors_by_wife_filter. by rewrite lower_idemp.
Qed.

Lemma fragment_case_is_ignored_witness :
  @get_emperors_by_wife ascii_only "POPPAEA" create_roman_empire
  = @get_emperors_by_wife ascii_only "poppaea" create_roman_empire.
Proof.
  apply (@fragment_case_is_ignored ascii_only "POPPAEA" "poppaea"
           create_roman_empire).
  reflexivity.
Defined.

(** ** The loop that asks for a year *)

Lemma answer_reads_nothing (int : string → option Z) (self : RomanEmpire)
    (line : string) :
  List.filter is_input (answer int self line) = [].
Proof.
  unfold answer. destruct (int line) as [year|]; [|done].
  destruct (get_emperor_by_year year self) as [|e l]; [done|].
  simpl. induction l as [|e' l IH]; [done|]. exact IH.
Qed.

Lemma year_loop_cons `{!UnicodeLower} (int : string → option Z) (self : RomanEmpire)
    (line : string) (rest : list string) :
  lower line ≠ "exit" →
  year_loop int self (line :: rest)
  = (Input year_prompt
       :: answer int self line ++ Print "" :: fst (year_loop int self rest),
     snd (year_loop int self rest)).
Proof.
  intros Hne. simpl. apply String.eqb_neq in Hne. rewrite Hne.
  by destruct (year_loop int self rest).
Qed.

Lemma year_loop_exit `{!UnicodeLower} (int : string → option Z) (self : RomanEmpire)
    (line : string) (rest : list string) :
  lower line = "exit" →
  year_loop int self (line :: rest) = ([Input year_prompt], Break).
Proof. intros He. simpl. by rewrite He. Qed.

Lemma reads_of_turn (int : string → option Z) (self : RomanEmpire)
    (line : string) (events : list event) :
  length (List.filter is_input
            (Input year_prompt :: answer int self line ++ Print "" :: events))
  = S (length (List.filter is_input events)).
Proof. simpl. by rewrite List.filter_app, answer_reads_nothing. Qed.

(** X17: the loop ends at the first line that reads "exit" in any case,
    and only there.  If it ends by [break], the input splits into lines that
    are not "exit", then one that is, then lines that are never read: the
    loop does the same with or without them, and it has read one line more
    than the lines before the "exit".  If no line is "exit" the loop reads
    them all, asks once more and ends by the [EOFError] of [input]. *)
Theorem year_loop_ends `{!UnicodeLower} (int : string → option Z)
    (self : RomanEmpire)
    (stdin : list string) :
  match snd (year_loop int self stdin) with
  | Break =>
      ∃ before line after,
        stdin = before ++ line :: after
        ∧ lower line = "exit"
        ∧ Forall (λ l, lower l ≠ "exit") before
        ∧ year_loop int self stdin = year_loop int self (before ++ [line])
        ∧ length (List.filter is_input (fst (year_loop int self stdin)))
          = S (length before)
  | EOFError =>
      Forall (λ l, lower l ≠ "exit") stdin
      ∧ length (List.filter is_input (fst (year_loop int self stdin)))
        = S (length stdin)
  end.
Proof.
  induction stdin as [|line rest IH]; [by split|].
  destruct (decide (lower line = "exit")) as [He|Hne].
  - rewrite (year_loop_exit _ _ _ _ He). simpl snd.
    exists [], line, rest. split_and!; try done.
    simpl app. by rewrite !(year_loop_exit _ _ _ _ He).
  - rewrite (year_loop_cons _ _ _ _ Hne). simpl snd. simpl fst.
    rewrite reads_of_turn.
    destruct (snd (year_loop int self rest)) eqn:Hsnd.
    + destruct IH as (before & l & after & -> & He & Hb & Hsame & Hreads).
      exists (line :: before), l, after. split_and!; [done|done|by constructor|..].
      * simpl app. rewrite (year_loop_cons _ _ _ _ Hne).
        by rewrite <- Hsame, Hsnd.
      * simpl. by rewrite Hreads.
    + destruct IH as [Hall Hreads]. split; [by constructor|].
      simpl. by rewrite Hreads.
Qed.



(** ** The two passes of create_roman_empire *)

Lemma with_successor_twice (s s' : option nat) (e : RomanEmperor) :
  with_successor s (with_successor s' e) = with_successor s e.
Proof. reflexivity. Qed.

Lemma alter_successor_cleared (s : option nat) (i : nat) (l : list RomanEmperor) :
  map (with_successor None) (alter (with_successor s) i l)
  = map (with_successor None) l.
Proof.
  revert i. induction l as [|e l IH]; intros [|i]; simpl; [done..| |].
  - by rewrite with_successor_twice.
  - f_equal. apply IH.
Qed.

Lemma successor_pass_cleared (ps : list (nat * nat)) (self : RomanEmpire) :
  dynasties (fold_left set_successor ps self) = dynasties self
  ∧ map (with_successor None) (emperors (fold_left set_successor ps self))
    = map (with_successor None) (emperors self).
Proof.
  revert self. induction ps as [|ij ps IH]; intros self; [done|]. simpl.
  destruct (IH (set_successor self ij)) as [-> ->]. split; [done|].
  apply alter_successor_cleared.
Qed.

Lemma cons_up_to_successor (e e' : RomanEmperor) (l l' : list RomanEmperor) :
  map (with_successor None) (e :: l) = map (with_successor None) (e' :: l') →
  with_successor None e = with_successor None e'
  ∧ map (with_successor None) l = map (with_successor None) l'.
Proof.
  change (map ?f (?x :: ?k)) with (f x :: map f k).
  generalize (with_successor None e), (with_successor None e'),
    (map (with_successor None) l), (map (with_successor None) l').
  intros a b k k' Heq. by injection Heq.
Qed.

(** Two lists that are equal up to [successor] give the same result, up
    to [successor], under a filter that does not read that field, and the
    same values of a function that does not read it. *)
Lemma filter_up_to_successor (p : RomanEmperor → bool) (l l' : list RomanEmperor) :
  (∀ s e, p (with_successor s e) = p e) →
  map (with_successor None) l = map (with_successor None) l' →
  map (with_successor None) (List.filter p l)
  = map (with_successor None) (List.filter p l').
Proof.
  intros Hp. revert l'.
  induction l as [|e l IH]; intros [|e' l'] Heq; try done.
  apply cons_up_to_successor in Heq as [He Hl]. simpl.
  rewrite <- (Hp None e), <- (Hp None e'), He.
  destruct (p (with_successor None e')); simpl; [rewrite He|]; by rewrite (IH l').
Qed.

Lemma omap_up_to_successor {B} (h : RomanEmperor → option B)
    (l l' : list RomanEmperor) :
  (∀ s e, h (with_successor s e) = h e) →
  map (with_successor None) l = map (with_successor None) l' →
  omap h l = omap h l'.
Proof.
  intros Hh. revert l'.
  induction l as [|e l IH]; intros [|e' l'] Heq; try done.
  apply cons_up_to_successor in Heq as [He Hl].
  change (omap h (e :: l))
    with (match h e with Some y => y :: omap h l | None => omap h l end).
  change (omap h (e' :: l'))
    with (match h e' with Some y => y :: omap h l' | None => omap h l' end).
  by rewrite <- (Hh None e), <- (Hh None e'), He, (IH l').
Qed.

(** X19: the pass that sets the successors changes nothing a query reads.
    For any records added to the empty collection and any successor
    assignments made afterwards, as in [create_roman_empire], the collection
    holds the records that were added, in order and equal to them up to the
    field [successor]; [dynasties] is still the set of their truthy labels;
    and the queries by year and by wife return the records they returned
    before the pass, up to [successor]. *)
Theorem successor_pass_keeps_data `{!UnicodeLower} (rs : list RomanEmperor)
    (ps : list (nat * nat)) :
  create_roman_empire
    = fold_left set_successor successors (add_emperors seed RomanEmpire__init__)
  ∧ map (with_successor None)
      (emperors (fold_left set_successor ps (add_emperors rs RomanEmpire__init__)))
    = map (with_successor None) rs
  ∧ dynasties (fold_left set_successor ps (add_emperors rs RomanEmpire__init__))
    = truthy_dynasties
        (emperors (fold_left set_successor ps (add_emperors rs RomanEmpire__init__)))
  ∧ (∀ year,
       map (with_successor None)
         (get_emperor_by_year year
            (fold_left set_successor ps (add_emperors rs RomanEmpire__init__)))
       = map (with_successor None)
           (get_emperor_by_year year (add_emperors rs RomanEmpire__init__)))
  ∧ (∀ fragment,
       map (with_successor None)
         (get_emperors_by_wife fragment
            (fold_left set_successor ps (add_emperors rs RomanEmpire__init__)))
       = map (with_successor None)
           (get_emperors_by_wife fragment (add_emperors rs RomanEmpire__init__))).
Proof.
  destruct (successor_pass_cleared ps (add_emperors rs RomanEmpire__init__))
    as [Hd He].
  destruct (add_emperors_from_empty rs) as [Hrs Hdrs].
  split_and!.
  - reflexivity.
  - by rewrite He, Hrs.
  - rewrite Hd, Hdrs. unfold truthy_dynasties. f_equal.
    apply omap_up_to_successor; [done|]. by rewrite He, Hrs.
  - intros year. rewrite !get_emperor_by_year_bool.
    by apply filter_up_to_successor.
  - intros fragment. rewrite !get_emperors_by_wife_filter.
    by apply filter_up_to_successor.
Qed.

(** ** Insertion order and ties *)

Lemma key_inj_of_NoDup (key : RomanEmperor → Z) (l : list RomanEmperor)
    (x y : RomanEmperor) :
  NoDup (map key l) → x ∈ l → y ∈ l → key x = key y → x = y.
Proof.
  induction l as [|e l IH]; [by intros _ ?%elem_of_nil|].
  simpl. intros [Hnotin Hnd]%NoDup_cons Hx Hy Hk.
  assert (∀ z, z ∈ l → key z ∈ map key l) as Hin.
  { intros z Hz. change (map key l) with (key <$> l). by apply list_elem_of_fmap_2. }
  apply elem_of_cons in Hx as [->|Hx]; apply elem_of_cons in Hy as [->|Hy].
  - done.
  - exfalso. apply Hnotin. rewrite Hk. by apply Hin.
  - exfalso. apply Hnotin. rewrite <- Hk. by apply Hin.
  - by apply IH.
Qed.

Lemma sorted_order_independent (key : RomanEmperor → Z) (reverse : bool)
    (l l' : list RomanEmperor) :
  l ≡ₚ l' → NoDup (map key l) →
  sorted key l reverse = sorted key l' reverse.
Proof.
  intros Hp Hnd.
  apply (StronglySorted_unique_strong (in_order key reverse));
    [|apply sorted_in_order..|by rewrite !sorted_Permutation].
  intros x1 x2 Hx1 Hx2 H12 H21.
  rewrite sorted_Permutation in Hx1. rewrite sorted_Permutation, <- Hp in Hx2.
  apply (key_inj_of_NoDup key l); [done..|].
  unfold in_order in H12, H21. destruct reverse; lia.
Qed.

(** X20: insertion order matters to a top-N query only through ties.  If
    two collections hold the same records, in whatever order, and no two
    records of them have the same key (the same reign duration for
    [get_longest_reigning], and so on), the query returns the same list for
    both, for every [top_n]. *)
Theorem top_n_order_independent (top_n : Z) (self self' : RomanEmpire) :
  emperors self ≡ₚ emperors self' →
  Forall
    (λ '(query, key, _),
       NoDup (map key (emperors self)) → query top_n self = query top_n self')
    top_n_specs.
Proof.
  intros Hp.
  assert (∀ key reverse,
            NoDup (map key (emperors self)) →
            slice_to top_n (sorted key (emperors self) reverse)
            = slice_to top_n (sorted key (emperors self') reverse)) as Hgen.
  { intros key reverse Hnd. f_equal. by apply sorted_order_independent. }
  unfold top_n_specs. repeat apply Forall_cons_2; [apply Hgen..|constructor].
Qed.

Lemma top_n_order_independent_witness :
  get_longest_reigning 1 (add_emperors [tiberius; augustus] RomanEmpire__init__)
  = get_longest_reigning 1 (add_emperors [augustus; tiberius] RomanEmpire__init__).
Proof.
  assert (emperors (add_emperors [tiberius; augustus] RomanEmpire__init__)
          ≡ₚ emperors (add_emperors [augustus; tiberius] RomanEmpire__init__))
    as Hp by apply Permutation_swap.
  pose proof (top_n_order_independent 1 _ _ Hp) as Hall.
  apply Forall_cons in Hall as [Hlong _].
  apply Hlong. simpl. repeat constructor.
  - intros Hin. apply list_elem_of_singleton in Hin. discriminate Hin.
  - by intros ?%elem_of_nil.
Defined.
